(** * Whisper envelopes and messages (Message.cpp): a shallow embedding

    The development follows [Message.cpp]: [Message::Message] (opening an
    envelope), [Message::populate] (frame parsing), [Message::seal],
    [Envelope::workProved] and [Envelope::proveWork].  The cryptographic
    primitives ([sha3], [encrypt], [decrypt], [sign], [recover], [KeyPair])
    live in other libraries; they are the fields of the class [Crypto]. *)

From Stdlib Require Import ZArith NArith List Bool Lia.
From Stdlib Require String Ascii.
Import ListNotations.
Open Scope Z_scope.

(** ** Bytes, byte ranges and fixed-size hashes *)

Definition byte := Z.
Definition bytes := list byte.

(** [FixedHash<N>] is an array of [N] bytes; [h256], [Secret], [Public]
    ([FixedHash<64>]) and [Signature] ([FixedHash<65>]) are such arrays. *)
Definition h256 := bytes.
Definition Secret := bytes.
Definition Public := bytes.
Definition Signature := bytes.

Definition size (b : bytes) : Z := Z.of_nat (length b).

Definition zero_hash (len : nat) : bytes := repeat 0 len.

(** [FixedHash::operator bool]: some byte differs from zero. *)
Definition is_nonzero (h : bytes) : bool := existsb (fun b => negb (b =? 0)) h.

(** Modelled from the spec: [FixedHash::operator^] is declared in a header
    that is not part of the sources; the spec derives the key as
    "candidate_secret XOR data[..]", a byte-wise exclusive or. *)
Definition hash_xor (a b : bytes) : bytes :=
  map (fun p => Z.lxor (fst p) (snd p)) (combine a b).

(** Modelled from the spec: [vector_ref::cropped] is declared in a header
    that is not part of the sources; the spec writes it as the slices
    [data[b .. b+c]] and [data[b ..]].  A range that does not fit yields the
    empty reference. *)
Definition cropped (r : bytes) (_begin _count : Z) : bytes :=
  if _begin + _count <=? size r
  then firstn (Z.to_nat _count) (skipn (Z.to_nat _begin) r)
  else [].

Definition cropped_from (r : bytes) (_begin : Z) : bytes :=
  if _begin <=? size r then skipn (Z.to_nat _begin) r else [].

(** Modelled from the spec: the [h256(bytesConstRef)] constructor is declared
    in a header that is not part of the sources; a 32-byte range is copied
    verbatim (the spec's key slot), any other range leaves the zero hash. *)
Definition h256_of_ref (r : bytes) : h256 :=
  if size r =? 32 then r else zero_hash 32.

(** Little-endian and big-endian images of an unsigned integer on [len]
    bytes. *)
Fixpoint le_bytes (len : nat) (x : Z) : bytes :=
  match len with
  | O => []
  | S k => (x mod 256) :: le_bytes k (x / 256)
  end.

Definition be_bytes (len : nat) (x : Z) : bytes := rev (le_bytes len x).

(** [h256(u256)]: the big-endian image of the integer on 32 bytes. *)
Definition h256_of_u256 (x : Z) : h256 := be_bytes 32 x.

(** Modelled from the spec: [FixedHash::firstBitSet] is declared in a header
    that is not part of the sources; the spec calls it the
    "leading_zero_bit_count" of the hash. *)
Fixpoint firstBitSet (h : bytes) : Z :=
  match h with
  | [] => 0
  | d :: t => if d =? 0 then 8 + firstBitSet t else 7 - Z.log2 d
  end.

(** Modelled from the spec: [ContainsSignature] and [sizeof(Signature)] come
    from headers that are not part of the sources; the spec gives
    "bit 0 = has signature" and "the 65-byte signature". *)
Definition ContainsSignature : Z := 1.
Definition sizeof_Signature : Z := 65.

(** ** Calls that may throw *)

Inductive outcome (A : Type) : Type :=
| Val (a : A)
| Thrown.
Arguments Val {A} a.
Arguments Thrown {A}.

(** The primitives the file calls.  [decrypt] returns [bool] and fills an
    output buffer: [Some b] is [true] with buffer [b], [None] is [false].
    [KeyPair_pub s] is [KeyPair(s).pub()]. *)
Class Crypto : Type := {
  sha3 : bytes -> h256;
  encrypt : Public -> bytes -> outcome bytes;
  decrypt : Secret -> bytes -> outcome (option bytes);
  sign : Secret -> h256 -> outcome Signature;
  recover : Signature -> h256 -> outcome Public;
  KeyPair_pub : Secret -> outcome Public;
  (** [Envelope::streamRLP(_, WithoutNonce)]: the serialisation of expiry,
      ttl, topics and data. *)
  rlp_WithoutNonce : Z -> Z -> list bytes -> bytes -> bytes;
  (** The conversion of a [FullTopic] to the envelope's 4-byte tags. *)
  abridge : list h256 -> list bytes
}.

(** ** Envelope and Message *)

Record Envelope : Type := mkEnvelope {
  m_expiry : Z;
  m_ttl : Z;
  m_topic : list bytes;
  m_data : bytes;
  m_nonce : Z
}.

Record Message : Type := mkMessage {
  m_payload : bytes;
  m_from : Public;
  m_to : Public
}.

(** [_e.topics().size()] *)
Definition topics_size (e : Envelope) : Z := Z.of_nat (length (m_topic e)).

(** A default-constructed [Message]: no payload, zero keys. *)
Definition empty_Message : Message :=
  mkMessage [] (zero_hash 64) (zero_hash 64).

(** ** Member functions: state of [*this] threaded, exceptions aborting

    A member function is a function from the object's state to an outcome and
    the state it leaves; what was assigned before a throw stays assigned. *)

Definition M (A : Type) : Type := Message -> outcome A * Message.

Definition ret {A : Type} (a : A) : M A := fun this => (Val a, this).

Definition bind {A B : Type} (m : M A) (f : A -> M B) : M B :=
  fun this =>
    match m this with
    | (Val a, this') => f a this'
    | (Thrown, this') => (Thrown, this')
    end.

Definition call {A : Type} (r : outcome A) : M A := fun this => (r, this).

Definition get_from : M Public := fun this => (Val (m_from this), this).

Definition set_payload (p : bytes) : M unit :=
  fun this => (Val tt, mkMessage p (m_from this) (m_to this)).

Definition set_from (k : Public) : M unit :=
  fun this => (Val tt, mkMessage (m_payload this) k (m_to this)).

Definition set_to (k : Public) : M unit :=
  fun this => (Val tt, mkMessage (m_payload this) (m_from this) k).

(** [try { body } catch (...) { handler }] *)
Definition try_catch {A : Type} (body handler : M A) : M A :=
  fun this =>
    match body this with
    | (Val a, this') => (Val a, this')
    | (Thrown, this') => handler this'
    end.

Declare Scope member_scope.
Delimit Scope member_scope with member.
Notation "x <- m ;; k" := (bind m (fun x => k))
  (at level 61, m at next level, right associativity) : member_scope.
Notation "m ;;; k" := (bind m (fun _ => k))
  (at level 61, right associativity) : member_scope.

(** How the body of [Message::Message] was left; the C++ constructor returns
    nothing, the tag only names the path taken. *)
Inductive ctor_exit : Type :=
| NotDecrypted      (* one of the early [return]s before [populate] *)
| NotPopulated      (* [populate] returned [false] *)
| Opened            (* [populate] returned [true] and [m_to] was assigned *)
| Caught.           (* the [catch (...)] block was entered *)

(** What a call of [seal] (or [proveWork]) ends in. *)
Inductive run (A : Type) : Type :=
| Done (a : A)
| Throws            (* an exception of a primitive leaves the function *)
| AssertFails       (* the [assert] of the sign/recover round trip aborts *)
| OutOfFuel.        (* the model ran out of clock polls *)
Arguments Done {A} a.
Arguments Throws {A}.
Arguments AssertFails {A}.
Arguments OutOfFuel {A}.

Section Model.

Context {C : Crypto}.

Local Open Scope member_scope.

(** [bool Message::populate(bytes const& _data)] *)
Definition populate (_data : bytes) : M bool :=
  if size _data =? 0 then ret false
  else
    let flags := nth 0 _data 0 in
    if negb (Z.land flags ContainsSignature =? 0)
       && (sizeof_Signature + 1 <=? size _data)
    then
      let payload := cropped _data 1 (size _data - sizeof_Signature - 1) in
      let h := sha3 payload in
      let sig := firstn (Z.to_nat sizeof_Signature)
                        (skipn (Z.to_nat (1 + size payload)) _data) in
      k <- call (recover sig h) ;;
      set_from k ;;;
      from <- get_from ;;
      if negb (is_nonzero from) then ret false
      else set_payload payload ;;; ret true
    else
      set_payload (cropped_from _data 1) ;;; ret true.

(** The first statement of the [try] block of [Message::Message]: the buffer
    [b] after the decryption step, [None] standing for the early [return].
    [32 * _topicIndex] is computed on [unsigned], hence modulo [2^32]. *)
Definition decrypt_step (_e : Envelope) (_s : Secret) (_topicIndex : Z)
  : outcome (option bytes) :=
  if is_nonzero _s then
    decrypt _s (m_data _e)
  else
    if size (m_data _e) <? topics_size _e * 32 then Val None
    else
      decrypt
        (hash_xor _s
           (h256_of_ref (cropped (m_data _e) ((32 * _topicIndex) mod 2 ^ 32) 32)))
        (cropped_from (m_data _e) (32 * topics_size _e)).

(** The body of the [try] block of [Message::Message]. *)
Definition Message_try (_e : Envelope) (_s : Secret) (_topicIndex : Z)
  : M ctor_exit :=
  ob <- call (decrypt_step _e _s _topicIndex) ;;
  match ob with
  | None => ret NotDecrypted
  | Some b =>
      ok <- populate b ;;
      if ok then
        k <- call (KeyPair_pub _s) ;;
        set_to k ;;;
        ret Opened
      else ret NotPopulated
  end.

(** [Message::Message(Envelope const&, Secret const&, unsigned)], run on a
    default-constructed object: the exit tag and the object. *)
Definition Message_run (_e : Envelope) (_s : Secret) (_topicIndex : Z)
  : outcome ctor_exit * Message :=
  try_catch (Message_try _e _s _topicIndex) (ret Caught) empty_Message.

(** The constructed [Message], or the exception leaving the constructor. *)
Definition Message_ctor (_e : Envelope) (_s : Secret) (_topicIndex : Z)
  : outcome Message :=
  match Message_run _e _s _topicIndex with
  | (Val _, this) => Val this
  | (Thrown, _) => Thrown
  end.

(** [Message Envelope::open(Secret const& _s) const]; the default value of
    the constructor's third argument is set in a header that is not part of
    the sources and is taken as [default_topicIndex]. *)
Definition open (default_topicIndex : Z) (_e : Envelope) (_s : Secret)
  : outcome Message :=
  Message_ctor _e _s default_topicIndex.

(** ** Sealing *)

(** The frame [input] of [seal] once the signature block has run: the flags
    byte, the payload and, for a non-zero [_from], the signature.  The
    [resize] appends [sizeof(Signature)] bytes and the assignment through
    [Signature*] fills exactly these, whence the [firstn]; the [assert] reads
    them back from the frame. *)
Definition seal_input (payload : bytes) (_from : Secret) : run bytes :=
  let input := 0 :: payload in
  if is_nonzero _from then
    match sign _from (sha3 payload) with
    | Thrown => Throws
    | Val sg =>
        let input' :=
          Z.lor (nth 0 input 0) ContainsSignature
          :: payload ++ firstn (Z.to_nat sizeof_Signature)
                               (sg ++ zero_hash (Z.to_nat sizeof_Signature)) in
        let stored := firstn (Z.to_nat sizeof_Signature)
                             (skipn (Z.to_nat (1 + size payload)) input') in
        match recover stored (sha3 payload), KeyPair_pub _from with
        | Val r, Val k => if list_eq_dec Z.eq_dec r k then Done input'
                          else AssertFails
        | _, _ => Throws
        end
    end
  else Done input.

(** [ret.m_data] of [seal]: the frame encrypted for [m_to] when that key is
    set, the frame itself otherwise. *)
Definition seal_data (this : Message) (_from : Secret) : run bytes :=
  match seal_input (m_payload this) _from with
  | Done input =>
      if is_nonzero (m_to this) then
        match encrypt (m_to this) input with
        | Val c => Done c
        | Thrown => Throws
        end
      else Done input
  | Throws => Throws
  | AssertFails => AssertFails
  | OutOfFuel => OutOfFuel
  end.

(** ** Proof of work *)

(** The byte order in which the host stores a [uint32_t]. *)
Inductive byte_order : Type := LittleEndian | BigEndian.

Definition store_uint32 (bo : byte_order) (n : Z) : bytes :=
  match bo with
  | LittleEndian => le_bytes 4 n
  | BigEndian => be_bytes 4 n
  end.

(** [d[1]] of [proveWork]: a zero hash whose bytes 28..31 are the storage of
    the [uint32_t] counter [n]. *)
Definition d1_block (bo : byte_order) (n : Z) : h256 :=
  zero_hash 28 ++ store_uint32 bo n.

(** [sha3(WithoutNonce)] *)
Definition sha3_WithoutNonce (e : Envelope) : h256 :=
  sha3 (rlp_WithoutNonce (m_expiry e) (m_ttl e) (m_topic e) (m_data e)).

(** [unsigned Envelope::workProved() const] *)
Definition workProved (e : Envelope) : Z :=
  firstBitSet (sha3 (sha3_WithoutNonce e ++ h256_of_u256 (m_nonce e))).

(** The variables the search loop of [proveWork] updates. *)
Record pow_state : Type := mkPow {
  pow_n : Z;            (* the [uint32_t] counter [n] *)
  pow_best : Z;         (* [bestBitSet] *)
  pow_nonce : Z         (* [m_nonce] *)
}.

(** The score [dev::sha3(chuck).firstBitSet()] when the counter is [n]. *)
Definition pow_score (bo : byte_order) (base : h256) (n : Z) : Z :=
  firstBitSet (sha3 (base ++ d1_block bo n)).

(** One pass through the body of the inner [for], with its [++n]. *)
Definition pow_step (bo : byte_order) (base : h256) (st : pow_state)
  : pow_state :=
  let fbs := pow_score bo base (pow_n st) in
  let nonce := if pow_best st <? fbs then pow_n st else pow_nonce st in
  let best := if pow_best st <? fbs then fbs else pow_best st in
  mkPow ((pow_n st + 1) mod 2 ^ 32) best nonce.

(** The inner [for]: 1024 passes. *)
Definition pow_round (bo : byte_order) (base : h256) (st : pow_state)
  : pow_state :=
  N.iter 1024 (pow_step bo base) st.

(** Readings of [high_resolution_clock::now()]: [clock_now k] is the [k]-th
    reading taken during the call, in ticks. *)
Record Clock : Type := mkClock {
  clock_now : nat -> Z;
  ticks_per_ms : Z
}.

(** The outer [for]: poll the clock, run a round while the deadline [_then]
    is ahead.  [fuel] bounds the number of polls. *)
Fixpoint pow_loop (bo : byte_order) (base : h256) (clk : Clock) (_then : Z)
    (fuel : nat) (poll : nat) (st : pow_state) : run pow_state :=
  match fuel with
  | O => OutOfFuel
  | S fuel' =>
      if clock_now clk poll <? _then
      then pow_loop bo base clk _then fuel' (S poll) (pow_round bo base st)
      else Done st
  end.

(** [void Envelope::proveWork(unsigned _ms)] *)
Definition proveWork (bo : byte_order) (clk : Clock) (fuel : nat)
    (_ms : Z) (e : Envelope) : run Envelope :=
  let base := sha3_WithoutNonce e in
  let _then := clock_now clk 0 + _ms * ticks_per_ms clk in
  match pow_loop bo base clk _then fuel 1 (mkPow 0 0 (m_nonce e)) with
  | Done st =>
      Done (mkEnvelope (m_expiry e) (m_ttl e) (m_topic e) (m_data e)
              (pow_nonce st))
  | Throws => Throws
  | AssertFails => AssertFails
  | OutOfFuel => OutOfFuel
  end.

(** [Envelope Message::seal(Secret, FullTopic const&, unsigned, unsigned) const];
    [time0] is the reading of [time(0)], and the sum handed to the
    constructor's [unsigned] parameter is taken modulo [2^32].  The nonce of
    the fresh envelope is that of a default-constructed [u256]. *)
Definition seal (bo : byte_order) (clk : Clock) (fuel : nat) (time0 : Z)
    (this : Message) (_from : Secret) (_topic : list h256)
    (_ttl _workToProve : Z) : run Envelope :=
  match seal_data this _from with
  | Done data =>
      proveWork bo clk fuel _workToProve
        (mkEnvelope ((time0 + _ttl) mod 2 ^ 32) _ttl (abridge _topic) data 0)
  | Throws => Throws
  | AssertFails => AssertFails
  | OutOfFuel => OutOfFuel
  end.

End Model.

(** ** What the primitives are assumed to satisfy

    The laws hold for a key pair that is valid: [KeyPair] yields a public key
    and that key is not the zero hash. *)
Class CryptoLaws (C : Crypto) : Prop := {
  (** what is encrypted for a public key is decrypted by its secret *)
  encrypt_decrypt :
    forall (s : Secret) (k : Public) (plain : bytes),
      KeyPair_pub s = Val k -> is_nonzero k = true ->
      exists cipher,
        encrypt k plain = Val cipher /\ decrypt s cipher = Val (Some plain);
  (** a signature has 65 bytes and recovers to the signer's public key *)
  sign_recover :
    forall (s : Secret) (k : Public) (h : h256),
      KeyPair_pub s = Val k -> is_nonzero k = true ->
      exists sg,
        sign s h = Val sg /\ length sg = 65%nat /\ recover sg h = Val k
}.

(** [s] is a secret whose key pair has the public key [k], a key that is
    present. *)
Definition valid_key_pair {C : Crypto} (s : Secret) (k : Public) : Prop :=
  KeyPair_pub s = Val k /\ is_nonzero k = true.

(** The sender a frame sealed with [_from] carries: the public key [kf] of a
    non-zero [_from], none for the zero secret. *)
Definition sealed_sender (_from : Secret) (kf : Public) : Public :=
  if is_nonzero _from then kf else zero_hash 64.

(** The [Message] that stands for "no message": nothing was populated. *)
Definition is_absent (m : Message) : bool :=
  (size (m_payload m) =? 0)
  && negb (is_nonzero (m_from m)) && negb (is_nonzero (m_to m)).

(** The deadline of [proveWork] has passed at the [k]-th poll of the clock. *)
Definition deadline_at (clk : Clock) (_ms : Z) (k : nat) : Prop :=
  (1 <= k)%nat /\ clock_now clk 0 + _ms * ticks_per_ms clk <= clock_now clk k.

(** What holds of the loop variables throughout the search started with
    [m_nonce = nonce0]: either nothing was assigned yet and the best score is
    still zero, or the nonce is a counter value whose score is the best score,
    which is positive. *)
Definition search_inv {C : Crypto} (bo : byte_order) (base : h256)
    (nonce0 : Z) (st : pow_state) : Prop :=
  0 <= pow_n st < 2 ^ 32 /\
  ((pow_nonce st = nonce0 /\ pow_best st = 0) \/
   (0 <= pow_nonce st < 2 ^ 32 /\ 0 < pow_best st /\
    pow_best st = pow_score bo base (pow_nonce st))).

(** ** A small instance of the primitives

    Enough to run the functions on concrete inputs: keys are padded copies of
    the secret, a cipher text is the plain text behind the public key, a
    signature carries the secret, the hash rotates its input. *)
Module Toy.

Definition fixed (len : nat) (b : bytes) : bytes :=
  firstn len (b ++ zero_hash len).

Definition bytes_eqb (a b : bytes) : bool :=
  if list_eq_dec Z.eq_dec a b then true else false.

Definition pub (s : Secret) : Public := fixed 32 s ++ fixed 32 s.

Definition toy_decrypt (s : Secret) (cipher : bytes) : outcome (option bytes) :=
  if bytes_eqb (firstn 64 cipher) (pub s)
  then Val (Some (skipn 64 cipher))
  else Val None.

Definition toy_sha3 (input : bytes) : h256 :=
  map (fun x => (x + 1) mod 256) (fixed 32 (skipn 60 input ++ input)).

#[local] Instance crypto : Crypto := {
  sha3 := toy_sha3;
  encrypt := fun k plain => Val (k ++ plain);
  decrypt := toy_decrypt;
  sign := fun s h => Val (fixed 32 s ++ fixed 32 h ++ [27]);
  recover := fun sg h =>
    if bytes_eqb (firstn 32 (skipn 32 sg)) (fixed 32 h)
    then Val (firstn 32 sg ++ firstn 32 sg)
    else Val (zero_hash 64);
  KeyPair_pub := fun s => Val (pub s);
  rlp_WithoutNonce := fun expiry ttl topics data => concat topics ++ data;
  abridge := map (firstn 4)
}.

(** A clock that advances by one tick per reading, one tick per
    millisecond. *)
Definition clock : Clock := mkClock Z.of_nat 1.

(** A secret and its public key. *)
Definition secret : Secret := 7 :: zero_hash 31.

Definition hello : bytes := [104; 101; 108; 108; 111].

Definition topic : h256 := 1 :: 2 :: 3 :: 4 :: zero_hash 28.

End Toy.

(** The 32-bit value with the bytes of [n] in reverse order. *)
Definition bswap32 (n : Z) : Z :=
  (n mod 256) * 2 ^ 24 + (n / 2 ^ 8 mod 256) * 2 ^ 16
  + (n / 2 ^ 16 mod 256) * 2 ^ 8 + n / 2 ^ 24 mod 256.

(** ** The random code generator (fuzzHelper.cpp) *)

Module Fuzz.

Import String.StringSyntax.
Local Open Scope string_scope.

Definition string : Type := String.string.
Notation "a +++ b" := (String.append a b)
  (at level 60, right associativity).

(** [std::string::npos] and [std::string::find_first_of]: the
    position of the first character of [s] that occurs in [set]. *)
Definition npos : Z := 2 ^ 64 - 1.

Fixpoint char_in (c : Ascii.ascii) (set : string) : bool :=
  match set with
  | String.EmptyString => false
  | String.String d t => if Ascii.eqb c d then true else char_in c t
  end.

Fixpoint find_first_of_at (s set : string) (pos : Z) : Z :=
  match s with
  | String.EmptyString => npos
  | String.String c t =>
      if char_in c set then pos else find_first_of_at t set (pos + 1)
  end.

Definition find_first_of (s set : string) : Z := find_first_of_at s set 0.

(** What the file takes from elsewhere.  [rnd k lo hi] is the value that the
    [k]-th call of a generator built on [gen] returns when its distribution
    ranges over [lo .. hi]; reseeding [gen] only changes which values
    those are. *)
Class World : Type := {
  toCompactHex : Z -> string;
  instr_name : Z -> string;            (* [instructionInfo(op).name] *)
  instr_args : Z -> Z;                 (* [instructionInfo(op).args] *)
  Instruction_CALL : Z;
  Address_toString : bytes -> string;  (* [toString(Address)] *)
  Address_of_string : string -> bytes; (* [Address(std::string)] *)
  (** whether the default [sizeType] of [rndByteSequence] is [Strict] *)
  default_Strict : bool;
  rnd : nat -> Z -> Z -> Z
}.

(** A generator returns values of its distribution's range. *)
Definition in_range {W : World} : Prop :=
  forall k lo hi, lo <= hi -> lo <= rnd k lo hi <= hi.

(** [std::map<int, int>] as the list of its entries in key order. *)
Definition int_map := list (Z * Z).

(** [std::map::insert]: an entry whose key is present is left as it is. *)
Fixpoint map_insert (k v : Z) (m : int_map) : int_map :=
  match m with
  | [] => [(k, v)]
  | (k', v') :: t =>
      if k <? k' then (k, v) :: m
      else if k =? k' then m
      else (k', v') :: map_insert k v t
  end.

(** [m.at(k) = v]: [None] stands for [std::out_of_range]. *)
Fixpoint map_assign_at (k v : Z) (m : int_map) : option int_map :=
  match m with
  | [] => None
  | (k', v') :: t =>
      if k =? k' then Some ((k', v) :: t)
      else match map_assign_at k v t with
           | Some t' => Some ((k', v') :: t')
           | None => None
           end
  end.

(** [opCodeProbability] is kept as the weights the discrete distribution was
    built from. *)
Record RandomCodeOptions : Type := mkOptions {
  useUndefinedOpCodes : bool;
  smartCodeProbability : Z;
  opCodeProbability : list Z;
  mapWeights : int_map;
  addressList : list bytes
}.

(** [probabilities().size()] of a discrete distribution: one entry per
    weight, and a single entry when it was built from no weight. *)
Definition probabilities_size (weights : list Z) : Z :=
  match weights with
  | [] => 1
  | _ => Z.of_nat (length weights)
  end.

(** [void RandomCodeOptions::setWeights()] *)
Definition setWeights (o : RandomCodeOptions) : RandomCodeOptions :=
  mkOptions (useUndefinedOpCodes o) (smartCodeProbability o)
    (map snd (mapWeights o)) (mapWeights o) (addressList o).

(** [RandomCodeOptions::RandomCodeOptions()] *)
Definition RandomCodeOptions_ctor : RandomCodeOptions :=
  setWeights
    (mkOptions false 50 []
       (fold_left (fun m i => map_insert (Z.of_nat i) 50 m) (seq 0 255) [])
       []).

(** [void RandomCodeOptions::setWeight(Instruction opCode, int weight)] *)
Definition setWeight (opCode weight : Z) (o : RandomCodeOptions)
  : outcome unit * RandomCodeOptions :=
  match map_assign_at opCode weight (mapWeights o) with
  | None => (Thrown, o)
  | Some m =>
      (Val tt,
       setWeights (mkOptions (useUndefinedOpCodes o) (smartCodeProbability o)
                     (opCodeProbability o) m (addressList o)))
  end.

(** [void RandomCodeOptions::addAddress(dev::Address address)] *)
Definition addAddress (address : bytes) (o : RandomCodeOptions)
  : RandomCodeOptions :=
  mkOptions (useUndefinedOpCodes o) (smartCodeProbability o)
    (opCodeProbability o) (mapWeights o) (addressList o ++ [address]).

(** The state the constructor sets up and [setWeight] keeps: one weight for
    each of the keys 0 .. 254, and a distribution built from them. *)
Definition options_wf (o : RandomCodeOptions) : Prop :=
  map fst (mapWeights o) = map Z.of_nat (seq 0 255) /\
  opCodeProbability o = map snd (mapWeights o).

Section Generator.

Context {W : World}.

(** [void RandomCode::refreshSeed()]: [gen] is reseeded; the position in the
    sequence of generator calls is not changed. *)
Definition refreshSeed (k : nat) : nat := k.

Definition randOpCodeGen (k : nat) : Z * nat := (rnd k 0 255, S k).
Definition randOpLengGen (k : nat) : Z * nat := (rnd k 1 32, S k).
Definition randUniIntGen (k : nat) : Z * nat := (rnd k 0 2147483647, S k).

(** [int RandomCode::randomUniInt()] *)
Definition randomUniInt (k : nat) : Z * nat := randUniIntGen (refreshSeed k).

(** The [for] of [rndByteSequence]: [n] bytes, each narrowed to [uint8_t]. *)
Fixpoint rnd_bytes (n : nat) (hash : string) (k : nat) : string * nat :=
  match n with
  | O => (hash, k)
  | S n' =>
      let '(v, k1) := randOpCodeGen k in
      rnd_bytes n' (hash +++ toCompactHex (v mod 256)) k1
  end.

(** [std::string RandomCode::rndByteSequence(int length, SizeStrictness)];
    [strict] is [sizeType == SizeStrictness::Strict].  The remainder by a
    zero [length] is undefined in C++. *)
Definition rndByteSequence (length : Z) (strict : bool) (k : nat)
  : string * nat :=
  let k0 := refreshSeed k in
  let '(len, k1) :=
    if strict then (Z.max 1 length, k0)
    else let '(r, k') := randomUniInt k0 in (Z.rem r length, k') in
  rnd_bytes (Z.to_nat len) String.EmptyString k1.

(** [std::string RandomCode::getPushCode(std::string hex)] *)
Definition getPushCode (hex : string) : string :=
  let length := Z.of_nat (String.length hex) / 2 in
  let pushCode := 96 + length - 1 in
  toCompactHex pushCode +++ hex.

(** [std::string RandomCode::getPushCode(int value)] *)
Definition getPushCode_int (value : Z) : string :=
  getPushCode (toCompactHex value).

(** [dev::Address RandomCodeOptions::getRandomAddress()]; the [int] drawn is
    converted to [size_t] for the remainder. *)
Definition getRandomAddress (o : RandomCodeOptions) (k : nat) : bytes * nat :=
  if 0 <? Z.of_nat (length (addressList o)) then
    let '(r, k1) := randomUniInt k in
    let index := (r mod 2 ^ 64) mod Z.of_nat (length (addressList o)) in
    (nth (Z.to_nat index) (addressList o) [], k1)
  else
    let '(s, k1) := rndByteSequence 20 default_Strict k in
    (Address_of_string s, k1).

(** The last [for] of [fillArguments]: [num] pushes of random bytes. *)
Fixpoint fill_pushes (num : nat) (code : string) (k : nat) : string * nat :=
  match num with
  | O => (code, k)
  | S num' =>
      let '(length, k1) := randOpLengGen k in
      let '(s, k2) := rndByteSequence length default_Strict k1 in
      fill_pushes num' (code +++ getPushCode s) k2
  end.

(** [std::string RandomCode::fillArguments(Instruction, RandomCodeOptions)];
    [num] is [info.args] converted to [unsigned]. *)
Definition fillArguments (opcode : Z) (o : RandomCodeOptions) (k : nat)
  : string * nat :=
  let num := instr_args opcode mod 2 ^ 32 in
  let '(v, k1) := randOpCodeGen k in
  let rand := Z.rem v 100 in
  let smart := rand <? smartCodeProbability o in
  if smart && (opcode =? Instruction_CALL) then
    let '(a1, k2) := randUniIntGen k1 in
    let code := getPushCode_int (Z.rem a1 32) in
    let '(a2, k3) := randUniIntGen k2 in
    let code := code +++ getPushCode_int (Z.rem a2 32) in
    let '(a3, k4) := randUniIntGen k3 in
    let code := code +++ getPushCode_int (Z.rem a3 32) in
    let '(a4, k5) := randUniIntGen k4 in
    let code := code +++ getPushCode_int (Z.rem a4 32) in
    let '(a5, k6) := randUniIntGen k5 in
    let code := code +++ getPushCode_int a5 in
    let '(addr, k7) := getRandomAddress o k6 in
    let code := code +++ getPushCode (Address_toString addr) in
    let '(a7, k8) := randUniIntGen k7 in
    (code +++ getPushCode_int a7, k8)
  else
    fill_pushes (Z.to_nat num) String.EmptyString k1.

(** The two string literals of [generate]. *)
Definition INVALID_INSTRUCTION : string := "INVALID_INSTRUCTION".
Definition hex_00 : string := "00".

(** [info.name.find_first_of("INVALID_INSTRUCTION") > 0] *)
Definition name_is_undefined (name : string) : bool :=
  0 <? find_first_of name INVALID_INSTRUCTION.

(** The opcode a pass of [generate] picks, narrowed to [uint8_t]: from the
    weighted generator when the distribution has 255 probabilities. *)
Definition pick_opcode (o : RandomCodeOptions) (k : nat) : Z * nat :=
  let weightsDefined := probabilities_size (opCodeProbability o) =? 255 in
  let '(v, k1) :=
    if weightsDefined
    then (rnd k 0 (probabilities_size (opCodeProbability o) - 1), S k)
    else randOpCodeGen k in
  (v mod 256, k1).

(** One pass through the body of the [for] of [generate], with its [i++]:
    the loop counter, the code and the generator position it leaves. *)
Definition generate_pass (o : RandomCodeOptions) (i : Z) (code : string)
    (k : nat) : Z * string * nat :=
  let '(opcode, k1) := pick_opcode o k in
  let emit (code : string) :=
    let byte := toCompactHex opcode in
    code +++ (if String.eqb byte String.EmptyString then hex_00 else byte) in
  if name_is_undefined (instr_name opcode) then
    if negb (useUndefinedOpCodes o) then (i - 1 + 1, code, k1)
    else (i + 1, emit code, k1)
  else
    let '(args, k2) := fillArguments opcode o k1 in
    (i + 1, emit (code +++ args), k2).

(** The [for] of [generate]; [fuel] bounds the number of passes. *)
Fixpoint generate_loop (fuel : nat) (o : RandomCodeOptions) (size i : Z)
    (code : string) (k : nat) : option (string * nat) :=
  match fuel with
  | O => None
  | S fuel' =>
      if i <? size then
        let '(i', code', k') := generate_pass o i code k in
        generate_loop fuel' o size i' code' k'
      else Some (code, k)
  end.

(** [std::string RandomCode::generate(int maxOpNumber, RandomCodeOptions)] *)
Definition generate (fuel : nat) (maxOpNumber : Z) (o : RandomCodeOptions)
    (k : nat) : option (string * nat) :=
  let k0 := refreshSeed k in
  let size := rnd k0 0 maxOpNumber in
  generate_loop fuel o size 0 String.EmptyString (S k0).

End Generator.

(** A small world to run the generator in: every generator returns 96 when
    its range allows and the low end of its range otherwise; opcode 96 is
    [PUSH1], opcode 0 is [STOP]. *)
Definition toy_world : World := {|
  toCompactHex := fun v => if v =? 0 then String.EmptyString else "6f";
  instr_name := fun op => if op =? 96 then "PUSH1"
                          else if op =? 0 then "STOP"
                          else "INVALID_INSTRUCTION";
  instr_args := fun op => if op =? 0 then 0 else 1;
  Instruction_CALL := 241;
  Address_toString := fun _ => "00";
  Address_of_string := fun _ => [];
  default_Strict := true;
  rnd := fun k lo hi => if (lo <=? 96) && (96 <=? hi) then 96 else lo
|}.

End Fuzz.

(** * Properties *)

(** ** Byte ranges *)

Lemma size_nonneg (b : bytes) : 0 <= size b.
Proof. unfold size. lia. Qed.

Lemma size_cons (d : byte) (r : bytes) : size (d :: r) = 1 + size r.
Proof. unfold size. cbn [length]. lia. Qed.

Lemma size_app (a b : bytes) : size (a ++ b) = size a + size b.
Proof. unfold size. rewrite length_app. lia. Qed.

Lemma cropped_from_tail (d : byte) (r : bytes) : cropped_from (d :: r) 1 = r.
Proof.
  unfold cropped_from. rewrite size_cons.
  pose proof (size_nonneg r) as Hr.
  destruct (1 <=? 1 + size r) eqn:E.
  - reflexivity.
  - apply Z.leb_gt in E. lia.
Qed.

Lemma is_nonzero_zero_hash (len : nat) : is_nonzero (zero_hash len) = false.
Proof. induction len as [|k IH]; [reflexivity | exact IH]. Qed.

Lemma hash_xor_zero_secret (s k : bytes) :
  is_nonzero s = false -> length s = length k -> hash_xor s k = k.
Proof.
  revert k. induction s as [|a s IH]; intros [|b k] Hz Hlen; try discriminate.
  - reflexivity.
  - cbn in Hz. apply orb_false_iff in Hz. destruct Hz as [Ha Hs].
    apply negb_false_iff, Z.eqb_eq in Ha. subst a.
    unfold hash_xor in *. cbn [combine map fst snd].
    rewrite Z.lxor_0_l. f_equal. apply IH; [exact Hs | now injection Hlen].
Qed.

Lemma h256_of_ref_length (r : bytes) : length (h256_of_ref r) = 32%nat.
Proof.
  unfold h256_of_ref, size. destruct (Z.of_nat (length r) =? 32) eqn:E.
  - apply Z.eqb_eq in E. lia.
  - apply repeat_length.
Qed.

Lemma cropped_in_range (r : bytes) (b c : Z) :
  0 <= b -> 0 <= c -> b + c <= size r ->
  cropped r b c = firstn (Z.to_nat c) (skipn (Z.to_nat b) r) /\
  size (cropped r b c) = c.
Proof.
  intros Hb Hc Hfit. unfold cropped.
  destruct (b + c <=? size r) eqn:E; [|apply Z.leb_gt in E; lia].
  split; [reflexivity|].
  unfold size in *. rewrite length_firstn, length_skipn. lia.
Qed.

Section Opening.

Context {C : Crypto}.

(** ** Frame parsing *)

Lemma populate_unsigned (d : byte) (r : bytes) (this : Message) :
  Z.land d ContainsSignature = 0 \/ size (d :: r) < 1 + sizeof_Signature ->
  populate (d :: r) this = (Val true, mkMessage r (m_from this) (m_to this)).
Proof.
  intros H. unfold populate. rewrite size_cons.
  pose proof (size_nonneg r) as Hr.
  destruct (1 + size r =? 0) eqn:E0; [apply Z.eqb_eq in E0; lia|].
  cbn [nth].
  assert (Hc : negb (Z.land d ContainsSignature =? 0)
               && (sizeof_Signature + 1 <=? 1 + size r) = false).
  { destruct H as [H|H].
    - rewrite H. reflexivity.
    - rewrite size_cons in H. apply andb_false_iff. right.
      apply Z.leb_gt. lia. }
  rewrite Hc, cropped_from_tail. reflexivity.
Qed.

(** C7: a non-empty frame whose flags byte has the signature bit set but
    which is shorter than one plus the signature size is parsed with
    success: everything after the flags byte becomes the payload and the
    sender is not touched, so it stays the zero key of the fresh object. *)
Theorem populate_short_signed_frame (data : bytes) :
  data <> [] ->
  Z.land (nth 0 data 0) ContainsSignature <> 0 ->
  size data < 1 + sizeof_Signature ->
  (forall this,
      populate data this
      = (Val true, mkMessage (tl data) (m_from this) (m_to this))) /\
  populate data empty_Message
  = (Val true, mkMessage (tl data) (zero_hash 64) (zero_hash 64)).
Proof.
  intros Hne _ Hshort. destruct data as [|d r]; [congruence|].
  split; intros; apply populate_unsigned; right; exact Hshort.
Qed.

(** ** The constructor *)

Lemma Message_run_not_decrypted (e : Envelope) (s : Secret) (idx : Z) :
  decrypt_step e s idx = Val None ->
  Message_run e s idx = (Val NotDecrypted, empty_Message).
Proof.
  intros H. unfold Message_run, try_catch, Message_try, bind, call.
  rewrite H. reflexivity.
Qed.

Lemma Message_run_decrypt_thrown (e : Envelope) (s : Secret) (idx : Z) :
  decrypt_step e s idx = Thrown ->
  Message_run e s idx = (Val Caught, empty_Message).
Proof.
  intros H. unfold Message_run, try_catch, Message_try, bind, call.
  rewrite H. reflexivity.
Qed.

(** After a decryption that filled the buffer, the constructor is decided by
    [populate] and by [KeyPair]. *)
Lemma Message_run_decrypted (e : Envelope) (s : Secret) (idx : Z) (b : bytes) :
  decrypt_step e s idx = Val (Some b) ->
  Message_run e s idx =
  match populate b empty_Message with
  | (Val true, m1) =>
      match KeyPair_pub s with
      | Val k => (Val Opened, mkMessage (m_payload m1) (m_from m1) k)
      | Thrown => (Val Caught, m1)
      end
  | (Val false, m1) => (Val NotPopulated, m1)
  | (Thrown, m1) => (Val Caught, m1)
  end.
Proof.
  intros H. unfold Message_run, try_catch, Message_try, bind, call.
  rewrite H.
  destruct (populate b empty_Message) as [[[|]|] m1]; try reflexivity.
  destruct (KeyPair_pub s); reflexivity.
Qed.

Lemma Message_ctor_of_run (e : Envelope) (s : Secret) (idx : Z)
    (x : ctor_exit) (m : Message) :
  Message_run e s idx = (Val x, m) -> Message_ctor e s idx = Val m.
Proof. intros H. unfold Message_ctor. rewrite H. reflexivity. Qed.

(** The [catch (...)] leaves no exception to the caller. *)
Lemma Message_run_caught (e : Envelope) (s : Secret) (idx : Z) :
  exists x m, Message_run e s idx = (Val x, m).
Proof.
  unfold Message_run, try_catch.
  destruct (Message_try e s idx empty_Message) as [[x|] m].
  - now exists x, m.
  - now exists Caught, m.
Qed.

(** A frame that [populate] refuses leaves nothing populated. *)
Lemma populate_refused (b : bytes) (r : outcome bool) (m1 : Message) :
  populate b empty_Message = (r, m1) -> r <> Val true ->
  is_absent m1 = true.
Proof.
  unfold populate.
  destruct (size b =? 0).
  { unfold ret. intros H _. injection H as _ <-. reflexivity. }
  destruct (negb (Z.land (nth 0 b 0) ContainsSignature =? 0)
            && (sizeof_Signature + 1 <=? size b)).
  - unfold bind, call, set_from, get_from, set_payload, ret. cbn [m_from].
    destruct (recover _ _) as [k|].
    + destruct (is_nonzero k) eqn:Ek; cbn [negb].
      * intros H Hr. injection H as <- _. congruence.
      * intros H _. injection H as _ <-.
        unfold is_absent. cbn [m_payload m_from m_to empty_Message].
        rewrite Ek, is_nonzero_zero_hash. reflexivity.
    + intros H _. injection H as _ <-. reflexivity.
  - unfold bind, set_payload, ret. intros H Hr. injection H as <- _. congruence.
Qed.

(** C5: opening never lets an exception out, whatever the primitives do, and
    every fault of decryption or parsing ends in the message that stands for
    "no message": a [decrypt] that throws or returns [false], a failed size
    check, an empty frame, a signature that [recover] rejects or chokes
    on. *)
Theorem open_is_total (default_topicIndex : Z) (e : Envelope) (s : Secret) :
  exists m,
    open default_topicIndex e s = Val m /\
    (decrypt_step e s default_topicIndex = Thrown -> m = empty_Message) /\
    (decrypt_step e s default_topicIndex = Val None -> m = empty_Message) /\
    (forall b,
        decrypt_step e s default_topicIndex = Val (Some b) ->
        fst (populate b empty_Message) <> Val true ->
        is_absent m = true).
Proof.
  unfold open.
  destruct (Message_run_caught e s default_topicIndex) as (x & m & Hrun).
  exists m. split; [apply (Message_ctor_of_run _ _ _ _ _ Hrun)|].
  repeat split.
  - intros H. rewrite (Message_run_decrypt_thrown _ _ _ H) in Hrun. congruence.
  - intros H. rewrite (Message_run_not_decrypted _ _ _ H) in Hrun. congruence.
  - intros b H Hpop. rewrite (Message_run_decrypted _ _ _ _ H) in Hrun.
    destruct (populate b empty_Message) as [r m1] eqn:Ep. cbn [fst] in Hpop.
    pose proof (populate_refused _ _ _ Ep Hpop) as Habs.
    destruct r as [[|]|]; try congruence.
Qed.

(** C2: when opening fully succeeds, the recipient is [KeyPair(_s).pub()] of
    the candidate secret.  A recipient is therefore present only on the
    direct path (non-zero secret); on the topic-indexed path the secret is
    zero and, the key pair of a zero secret having no public key, the
    recipient is absent. *)
Theorem recipient_only_on_direct_path
    (zero_secret_has_no_key :
       forall s k, is_nonzero s = false -> KeyPair_pub s = Val k ->
                   is_nonzero k = false)
    (e : Envelope) (s : Secret) (idx : Z) (m : Message) :
  Message_run e s idx = (Val Opened, m) ->
  KeyPair_pub s = Val (m_to m) /\
  (is_nonzero (m_to m) = true ->
   is_nonzero s = true /\ decrypt_step e s idx = decrypt s (m_data e)) /\
  (is_nonzero s = false -> is_nonzero (m_to m) = false).
Proof.
  intros Hrun.
  assert (Hk : KeyPair_pub s = Val (m_to m)).
  { destruct (decrypt_step e s idx) as [[b|]|] eqn:Ed.
    - rewrite (Message_run_decrypted _ _ _ _ Ed) in Hrun.
      destruct (populate b empty_Message) as [[[|]|] m1]; try congruence.
      destruct (KeyPair_pub s) as [k|]; try congruence.
      injection Hrun as <-. reflexivity.
    - rewrite (Message_run_not_decrypted _ _ _ Ed) in Hrun. congruence.
    - rewrite (Message_run_decrypt_thrown _ _ _ Ed) in Hrun. congruence. }
  split; [exact Hk|]. split.
  - intros Hto. destruct (is_nonzero s) eqn:Es.
    + split; [reflexivity|]. unfold decrypt_step. rewrite Es. reflexivity.
    + rewrite (zero_secret_has_no_key _ _ Es Hk) in Hto. discriminate.
  - intros Es. exact (zero_secret_has_no_key _ _ Es Hk).
Qed.

(** C8: the decryption mode is chosen by [if (_s)] alone.  A non-zero secret
    is handed to [decrypt] with the whole data, and a [decrypt] that fails or
    throws ends the constructor with nothing populated: the topic-indexed
    branch is not tried.  A zero secret takes the topic-indexed branch, where
    the key is the hash built from the slot, and the 32 bytes of the slot
    themselves whenever the slot lies inside the data. *)
Theorem open_dispatch_on_secret (e : Envelope) (s : Secret) (idx : Z) :
  (is_nonzero s = true ->
   decrypt_step e s idx = decrypt s (m_data e) /\
   (decrypt s (m_data e) = Val None ->
    Message_run e s idx = (Val NotDecrypted, empty_Message)) /\
   (decrypt s (m_data e) = Thrown ->
    Message_run e s idx = (Val Caught, empty_Message))) /\
  (is_nonzero s = false -> length s = 32%nat ->
   let at_ := (32 * idx) mod 2 ^ 32 in
   let slot := cropped (m_data e) at_ 32 in
   decrypt_step e s idx
   = (if size (m_data e) <? topics_size e * 32 then Val None
      else decrypt (h256_of_ref slot)
                   (cropped_from (m_data e) (32 * topics_size e))) /\
   hash_xor s (h256_of_ref slot) = h256_of_ref slot /\
   (at_ + 32 <= size (m_data e) ->
    hash_xor s (h256_of_ref slot)
    = firstn 32 (skipn (Z.to_nat at_) (m_data e)))).
Proof.
  split.
  - intros Es.
    assert (Hd : decrypt_step e s idx = decrypt s (m_data e)).
    { unfold decrypt_step. rewrite Es. reflexivity. }
    split; [exact Hd|]. split; intros H; rewrite H in Hd.
    + now apply Message_run_not_decrypted.
    + now apply Message_run_decrypt_thrown.
  - intros Es Hlen at_ slot.
    assert (Hx : hash_xor s (h256_of_ref slot) = h256_of_ref slot).
    { apply hash_xor_zero_secret; [exact Es|].
      rewrite h256_of_ref_length. exact Hlen. }
    split; [|split].
    + unfold decrypt_step. rewrite Es. fold at_. fold slot. rewrite Hx.
      reflexivity.
    + exact Hx.
    + intros Hfit. rewrite Hx.
      assert (Hat : 0 <= at_) by (apply Z.mod_pos_bound; lia).
      destruct (cropped_in_range (m_data e) at_ 32 Hat ltac:(lia) Hfit)
        as [Hc Hs].
      unfold h256_of_ref. fold slot in Hc, Hs. rewrite Hs, Z.eqb_refl.
      exact Hc.
Qed.

(** C9: a decrypted frame of exactly one byte whose signature flag is clear
    is parsed with success into the empty payload and no sender; the
    constructed message has the payload of the message that stands for "no
    message", so the payload alone does not tell the two apart. *)
Theorem one_byte_frame_opens_empty
    (e : Envelope) (s : Secret) (idx : Z) (flags : byte) :
  decrypt_step e s idx = Val (Some [flags]) ->
  Z.land flags ContainsSignature = 0 ->
  populate [flags] empty_Message = (Val true, empty_Message) /\
  exists m,
    Message_ctor e s idx = Val m /\
    m_payload m = [] /\
    m_from m = zero_hash 64 /\
    m_payload m = m_payload empty_Message /\
    (forall k, KeyPair_pub s = Val k ->
               Message_run e s idx = (Val Opened, mkMessage [] (zero_hash 64) k)).
Proof.
  intros Hd Hflag.
  assert (Hp : populate [flags] empty_Message = (Val true, empty_Message)).
  { rewrite populate_unsigned by (left; exact Hflag). reflexivity. }
  split; [exact Hp|].
  pose proof (Message_run_decrypted _ _ _ _ Hd) as Hrun. rewrite Hp in Hrun.
  destruct (KeyPair_pub s) as [k|] eqn:Ek.
  - eexists. split; [apply (Message_ctor_of_run _ _ _ _ _ Hrun)|].
    cbn. repeat split. intros k' Hk'. injection Hk' as <-. exact Hrun.
  - eexists. split; [apply (Message_ctor_of_run _ _ _ _ _ Hrun)|].
    cbn. repeat split. intros k' Hk'. discriminate.
Qed.

End Opening.

(** ** Proof of work *)

Lemma le_bytes_zero (len : nat) : le_bytes len 0 = zero_hash len.
Proof.
  induction len as [|k IH]; [reflexivity|].
  cbn [le_bytes zero_hash repeat]. rewrite Z.mod_0_l, Z.div_0_l by lia.
  f_equal. exact IH.
Qed.

(** On a big-endian host the block of [proveWork] is the hash that
    [workProved] builds from the stored nonce. *)
Lemma d1_block_big_endian (n : Z) :
  0 <= n < 2 ^ 32 -> d1_block BigEndian n = h256_of_u256 n.
Proof.
  intros Hn. unfold d1_block, h256_of_u256, store_uint32, be_bytes.
  change 32%nat with (4 + 28)%nat.
  assert (Hsplit : forall a b x,
             le_bytes (a + b) x = le_bytes a x ++ le_bytes b (x / 256 ^ Z.of_nat a)).
  { induction a as [|a IH]; intros b x.
    - cbn [Nat.add le_bytes app Z.of_nat]. now rewrite Z.pow_0_r, Z.div_1_r.
    - cbn [Nat.add le_bytes app]. rewrite IH. do 2 f_equal.
      rewrite Z.div_div by lia. f_equal.
      rewrite Nat2Z.inj_succ, Z.pow_succ_r by lia. reflexivity. }
  rewrite Hsplit, rev_app_distr.
  replace (n / 256 ^ Z.of_nat 4) with 0
    by (symmetry; apply Z.div_small; change (256 ^ Z.of_nat 4) with (2 ^ 32); lia).
  rewrite le_bytes_zero. reflexivity.
Qed.

Lemma d1_block_high_bytes (bo : byte_order) (n : Z) :
  firstn 28 (d1_block bo n) = zero_hash 28.
Proof.
  unfold d1_block. rewrite firstn_app.
  replace (28 - length (zero_hash 28))%nat with 0%nat by reflexivity.
  rewrite firstn_all2 by (unfold zero_hash; rewrite repeat_length; lia).
  cbn [firstn]. apply app_nil_r.
Qed.

Section Work.

Context {C : Crypto}.
Variable bo : byte_order.
Variable base : h256.

Lemma search_inv_step (nonce0 : Z) (st : pow_state) :
  search_inv bo base nonce0 st -> search_inv bo base nonce0 (pow_step bo base st).
Proof.
  intros [Hn Hb]. unfold search_inv, pow_step. cbn [pow_n pow_best pow_nonce].
  split; [apply Z.mod_pos_bound; lia|].
  destruct (pow_best st <? pow_score bo base (pow_n st)) eqn:E.
  - apply Z.ltb_lt in E. right.
    assert (0 <= pow_best st) by (destruct Hb as [[_ H0]|[_ [H0 _]]]; lia).
    repeat split; lia.
  - exact Hb.
Qed.

Lemma search_inv_round (nonce0 : Z) (st : pow_state) :
  search_inv bo base nonce0 st -> search_inv bo base nonce0 (pow_round bo base st).
Proof.
  unfold pow_round. apply N.iter_invariant. intros x. apply search_inv_step.
Qed.

Lemma pow_loop_inv (clk : Clock) (_then : Z) (nonce0 : Z) :
  forall fuel poll st st',
    pow_loop bo base clk _then fuel poll st = Done st' ->
    search_inv bo base nonce0 st -> search_inv bo base nonce0 st'.
Proof.
  induction fuel as [|fuel IH]; intros poll st st' Hrun Hinv; [discriminate|].
  cbn [pow_loop] in Hrun. destruct (clock_now clk poll <? _then).
  - apply (IH _ _ _ Hrun). now apply search_inv_round.
  - injection Hrun as <-. exact Hinv.
Qed.

(** The search is made of whole rounds of 1024 evaluations. *)
Lemma pow_loop_evaluations (clk : Clock) (_then : Z) :
  forall fuel poll st st',
    pow_loop bo base clk _then fuel poll st = Done st' ->
    exists rounds : N, st' = N.iter (1024 * rounds) (pow_step bo base) st.
Proof.
  induction fuel as [|fuel IH]; intros poll st st' Hrun; [discriminate|].
  cbn [pow_loop] in Hrun. destruct (clock_now clk poll <? _then).
  - destruct (IH _ _ _ Hrun) as [r Hr]. exists (N.succ r).
    rewrite Hr. unfold pow_round.
    replace (1024 * N.succ r)%N with (1024 * r + 1024)%N by lia.
    rewrite N.iter_add. reflexivity.
  - injection Hrun as <-. exists 0%N. reflexivity.
Qed.

(** The loop ends at the latest at the poll where the deadline has passed. *)
Lemma pow_loop_terminates (clk : Clock) (_then : Z) (k : nat) :
  _then <= clock_now clk k ->
  forall fuel poll st,
    (poll <= k)%nat -> (k < poll + fuel)%nat ->
    exists st', pow_loop bo base clk _then fuel poll st = Done st'.
Proof.
  intros Hk. induction fuel as [|fuel IH]; intros poll st Hle Hlt; [lia|].
  cbn [pow_loop]. destruct (clock_now clk poll <? _then) eqn:E.
  - apply Z.ltb_lt in E.
    assert (poll <> k) by (intros ->; lia).
    apply IH; lia.
  - now exists st.
Qed.

(** The counter after [i] evaluations is [i] modulo [2^32], and the best
    score dominates the score of every counter value tried so far. *)
Lemma search_covers (nonce0 : Z) (i : N) :
  let st := N.iter i (pow_step bo base) (mkPow 0 0 nonce0) in
  pow_n st = Z.of_N i mod 2 ^ 32 /\
  forall t, 0 <= t < Z.of_N i ->
            pow_score bo base (t mod 2 ^ 32) <= pow_best st.
Proof.
  induction i as [|i IH] using N.peano_ind.
  - cbn. split; [reflexivity | intros t Ht; lia].
  - rewrite N.iter_succ. cbv zeta in *. destruct IH as [Hn Hcov].
    set (st := N.iter i (pow_step bo base) (mkPow 0 0 nonce0)) in *.
    unfold pow_step. cbn [pow_n pow_best]. split.
    + rewrite Hn, N2Z.inj_succ, Zplus_mod_idemp_l. reflexivity.
    + intros t Ht.
      assert (Hbest : pow_best st <=
                      (if pow_best st <? pow_score bo base (pow_n st)
                       then pow_score bo base (pow_n st) else pow_best st) /\
                      pow_score bo base (pow_n st) <=
                      (if pow_best st <? pow_score bo base (pow_n st)
                       then pow_score bo base (pow_n st) else pow_best st)).
      { destruct (pow_best st <? pow_score bo base (pow_n st)) eqn:E;
          [apply Z.ltb_lt in E | apply Z.ltb_ge in E]; lia. }
      destruct (Z.eq_dec t (Z.of_N i)) as [->|Hne].
      * rewrite <- Hn. apply Hbest.
      * specialize (Hcov t ltac:(lia)). lia.
Qed.

(** Once [2^32] evaluations are done, a further evaluation changes neither
    the best score nor the nonce. *)
Lemma search_saturated (nonce0 : Z) (i : N) :
  let run_ := fun j => N.iter j (pow_step bo base) (mkPow 0 0 nonce0) in
  pow_best (run_ (2 ^ 32 + i + 1)%N) = pow_best (run_ (2 ^ 32 + i)%N) /\
  pow_nonce (run_ (2 ^ 32 + i + 1)%N) = pow_nonce (run_ (2 ^ 32 + i)%N).
Proof.
  cbv zeta. rewrite N.add_1_r, N.iter_succ.
  destruct (search_covers nonce0 (2 ^ 32 + i)) as [Hn Hcov]. cbv zeta in *.
  set (st := N.iter (2 ^ 32 + i) (pow_step bo base) (mkPow 0 0 nonce0)) in *.
  assert (Hrange : 0 <= pow_n st < 2 ^ 32)
    by (rewrite Hn; apply Z.mod_pos_bound; lia).
  assert (Hle : pow_score bo base (pow_n st) <= pow_best st).
  { rewrite <- (Z.mod_small (pow_n st) (2 ^ 32)) at 1 by exact Hrange.
    apply Hcov. change (Z.of_N (2 ^ 32 + i)) with (Z.of_N (2 ^ 32 + i)).
    rewrite N2Z.inj_add. change (Z.of_N (2 ^ 32)) with (2 ^ 32). lia. }
  unfold pow_step. cbn [pow_best pow_nonce].
  apply Z.ltb_ge in Hle. rewrite Hle. split; reflexivity.
Qed.

End Work.

(** ** Sealing and opening *)

Lemma to_nat_succ_size (p : bytes) : Z.to_nat (1 + size p) = S (length p).
Proof. unfold size. lia. Qed.

Lemma skipn_frame {A : Type} (d : A) (p sg : list A) :
  skipn (S (length p)) (d :: p ++ sg) = sg.
Proof.
  cbn [skipn]. rewrite skipn_app, skipn_all, Nat.sub_diag. reflexivity.
Qed.

Lemma firstn_exact {A : Type} (sg : list A) (n : nat) (tl_ : list A) :
  length sg = n -> firstn n (sg ++ tl_) = sg.
Proof.
  intros <-. rewrite firstn_app, firstn_all, Nat.sub_diag.
  cbn [firstn]. apply app_nil_r.
Qed.

Lemma skipn_exact {A : Type} (sg : list A) (n : nat) (tl_ : list A) :
  length sg = n -> skipn n (sg ++ tl_) = tl_.
Proof.
  intros <-. rewrite skipn_app, skipn_all, Nat.sub_diag. reflexivity.
Qed.

Lemma firstn_whole {A : Type} (sg : list A) (n : nat) :
  length sg = n -> firstn n sg = sg.
Proof. intros <-. apply firstn_all. Qed.

Section Sealing.

Context {C : Crypto} {L : CryptoLaws C}.

Lemma seal_input_unsigned (p : bytes) (_from : Secret) :
  is_nonzero _from = false -> seal_input p _from = Done (0 :: p).
Proof. intros H. unfold seal_input. rewrite H. reflexivity. Qed.

Lemma seal_input_signed (p : bytes) (_from : Secret) (kf : Public) :
  is_nonzero _from = true -> valid_key_pair _from kf ->
  exists sg,
    length sg = 65%nat /\ recover sg (sha3 p) = Val kf /\
    seal_input p _from = Done (1 :: p ++ sg).
Proof.
  intros Hnz [Hk Hkf].
  destruct (sign_recover _from kf (sha3 p) Hk Hkf) as (sg & Hs & Hlen & Hr).
  exists sg. split; [exact Hlen|]. split; [exact Hr|].
  unfold seal_input. rewrite Hnz, Hs.
  change (Z.to_nat sizeof_Signature) with 65%nat.
  rewrite (firstn_exact sg 65 _ Hlen), to_nat_succ_size, skipn_frame.
  rewrite firstn_whole by exact Hlen.
  rewrite Hr, Hk.
  destruct (list_eq_dec Z.eq_dec kf kf) as [_|Hne]; [reflexivity|congruence].
Qed.

Lemma populate_signed_frame (p sg : bytes) (k : Public) (this : Message) :
  length sg = 65%nat -> recover sg (sha3 p) = Val k -> is_nonzero k = true ->
  populate (1 :: p ++ sg) this = (Val true, mkMessage p k (m_to this)).
Proof.
  intros Hlen Hr Hk. unfold populate.
  assert (Hsize : size (1 :: p ++ sg) = 1 + size p + 65).
  { rewrite size_cons, size_app. unfold size at 2. rewrite Hlen. lia. }
  pose proof (size_nonneg p) as Hp.
  rewrite Hsize.
  destruct (1 + size p + 65 =? 0) eqn:E0; [apply Z.eqb_eq in E0; lia|].
  cbn [nth]. unfold sizeof_Signature, ContainsSignature.
  change (Z.land 1 1 =? 0) with false. cbn [negb andb].
  destruct (65 + 1 <=? 1 + size p + 65) eqn:E1; [|apply Z.leb_gt in E1; lia].
  replace (1 + size p + 65 - 65 - 1) with (size p) by lia.
  assert (Hpay : cropped (1 :: p ++ sg) 1 (size p) = p).
  { unfold cropped. rewrite Hsize.
    destruct (1 + size p <=? 1 + size p + 65) eqn:E2;
      [|apply Z.leb_gt in E2; lia].
    change (Z.to_nat 1) with 1%nat. cbn [skipn].
    unfold size. rewrite Nat2Z.id. apply firstn_exact. reflexivity. }
  rewrite Hpay, to_nat_succ_size, skipn_frame.
  change (Z.to_nat 65) with 65%nat.
  rewrite firstn_whole by exact Hlen.
  unfold bind, call, set_from, get_from, set_payload, ret.
  rewrite Hr. cbn [m_from m_payload m_to]. rewrite Hk. reflexivity.
Qed.

(** What [populate] makes of the frame that [seal] builds. *)
Lemma populate_seal_input
    (p : bytes) (_from : Secret) (kf : Public) (this : Message) :
  (is_nonzero _from = true -> valid_key_pair _from kf) ->
  m_from this = zero_hash 64 ->
  exists input,
    seal_input p _from = Done input /\
    populate input this
    = (Val true, mkMessage p (sealed_sender _from kf) (m_to this)).
Proof.
  intros Hfrom Hthis. unfold sealed_sender.
  destruct (is_nonzero _from) eqn:Enz.
  - destruct (seal_input_signed p _from kf Enz (Hfrom eq_refl))
      as (sg & Hlen & Hr & Hin).
    exists (1 :: p ++ sg). split; [exact Hin|].
    apply populate_signed_frame; [exact Hlen | exact Hr | apply (Hfrom eq_refl)].
  - exists (0 :: p). split; [now apply seal_input_unsigned|].
    rewrite populate_unsigned by (left; reflexivity).
    rewrite Hthis. reflexivity.
Qed.

Lemma proveWork_result
    (bo : byte_order) (clk : Clock) (_ms : Z) (e : Envelope) (k fuel : nat) :
  deadline_at clk _ms k -> (k <= fuel)%nat ->
  exists st,
    pow_loop bo (sha3_WithoutNonce e) clk
      (clock_now clk 0 + _ms * ticks_per_ms clk) fuel 1
      (mkPow 0 0 (m_nonce e)) = Done st /\
    proveWork bo clk fuel _ms e
    = Done (mkEnvelope (m_expiry e) (m_ttl e) (m_topic e) (m_data e)
              (pow_nonce st)).
Proof.
  intros [Hk1 Hk] Hfuel.
  destruct (pow_loop_terminates bo (sha3_WithoutNonce e) clk _ k Hk fuel 1%nat
              (mkPow 0 0 (m_nonce e)) Hk1 ltac:(lia)) as [st Hst].
  exists st. split; [exact Hst|]. unfold proveWork. rewrite Hst. reflexivity.
Qed.

(** Sealing for a recipient and opening with the recipient's secret: the
    whole message that comes out. *)
Lemma open_sealed
    (bo : byte_order) (clk : Clock) (fuel k : nat) (time0 : Z)
    (p : bytes) (mf to : Public) (_from s : Secret) (kf : Public)
    (_topic : list h256) (_ttl _work : Z) :
  (is_nonzero _from = true -> valid_key_pair _from kf) ->
  valid_key_pair s to -> is_nonzero s = true ->
  deadline_at clk _work k -> (k <= fuel)%nat ->
  exists e,
    seal bo clk fuel time0 (mkMessage p mf to) _from _topic _ttl _work = Done e /\
    forall idx,
      Message_run e s idx
      = (Val Opened, mkMessage p (sealed_sender _from kf) to).
Proof.
  intros Hfrom [Hto Htonz] Hs Hclk Hfuel.
  destruct (populate_seal_input p _from kf empty_Message Hfrom eq_refl)
    as (input & Hin & Hpop).
  destruct (encrypt_decrypt s to input Hto Htonz) as (cipher & Henc & Hdec).
  destruct (proveWork_result bo clk _work
              (mkEnvelope ((time0 + _ttl) mod 2 ^ 32) _ttl (abridge _topic)
                 cipher 0) k fuel Hclk Hfuel) as (st & _ & Hpw).
  eexists. split.
  - unfold seal, seal_data. cbn [m_payload m_to]. rewrite Hin, Htonz, Henc.
    exact Hpw.
  - intros idx.
    assert (Hd : decrypt_step
                   (mkEnvelope ((time0 + _ttl) mod 2 ^ 32) _ttl
                      (abridge _topic) cipher (pow_nonce st)) s idx
                 = Val (Some input)).
    { unfold decrypt_step. rewrite Hs. exact Hdec. }
    cbn [m_expiry m_ttl m_topic m_data].
    rewrite (Message_run_decrypted _ _ _ _ Hd), Hpop, Hto. reflexivity.
Qed.

(** C1 (amended): for every payload, every sender secret that is zero or
    has a valid key pair, and every recipient key that is set, sealing
    completes once the clock reaches the deadline, and opening the envelope
    with a non-zero secret whose public key is the recipient key yields a
    message whose payload is the sealed payload. *)
Theorem seal_open_round_trip
    (bo : byte_order) (clk : Clock) (fuel k : nat) (time0 : Z)
    (p : bytes) (mf to : Public) (_from s : Secret) (kf : Public)
    (_topic : list h256) (_ttl _work : Z) (default_topicIndex : Z) :
  (is_nonzero _from = true -> valid_key_pair _from kf) ->
  valid_key_pair s to -> is_nonzero s = true ->
  deadline_at clk _work k -> (k <= fuel)%nat ->
  exists e m,
    seal bo clk fuel time0 (mkMessage p mf to) _from _topic _ttl _work = Done e /\
    open default_topicIndex e s = Val m /\
    m_payload m = p.
Proof.
  intros Hfrom Hto Hs Hclk Hfuel.
  destruct (open_sealed bo clk fuel k time0 p mf to _from s kf _topic _ttl
              _work Hfrom Hto Hs Hclk Hfuel) as (e & Hseal & Hopen).
  exists e. eexists. split; [exact Hseal|]. split.
  - unfold open. apply (Message_ctor_of_run _ _ _ _ _ (Hopen default_topicIndex)).
  - reflexivity.
Qed.

(** C6: a message sealed for a recipient with a sender secret that has a
    valid key pair is opened, by the recipient's secret, with that sender's
    public key as its sender; sealed with the zero secret (no signer) it is
    opened with no sender. *)
Theorem sealed_sender_is_recovered
    (bo : byte_order) (clk : Clock) (fuel k : nat) (time0 : Z)
    (p : bytes) (mf to : Public) (_from s : Secret) (kf : Public)
    (_topic : list h256) (_ttl _work : Z) (idx : Z) :
  (is_nonzero _from = true -> valid_key_pair _from kf) ->
  valid_key_pair s to -> is_nonzero s = true ->
  deadline_at clk _work k -> (k <= fuel)%nat ->
  exists e m,
    seal bo clk fuel time0 (mkMessage p mf to) _from _topic _ttl _work = Done e /\
    Message_run e s idx = (Val Opened, m) /\
    (is_nonzero _from = true -> KeyPair_pub _from = Val (m_from m)) /\
    (is_nonzero _from = false -> m_from m = zero_hash 64).
Proof.
  intros Hfrom Hto Hs Hclk Hfuel.
  destruct (open_sealed bo clk fuel k time0 p mf to _from s kf _topic _ttl
              _work Hfrom Hto Hs Hclk Hfuel) as (e & Hseal & Hopen).
  exists e. eexists. split; [exact Hseal|]. split; [apply Hopen|].
  cbn [m_from]. unfold sealed_sender. split; intros Hnz; rewrite Hnz.
  - apply (Hfrom Hnz).
  - reflexivity.
Qed.

End Sealing.

(** ** The search of [proveWork] *)

Section Search.

Context {C : Crypto}.

(** C4 (amended): whenever the clock reaches the deadline at some poll,
    [proveWork] returns, with every field but the nonce unchanged.  The nonce
    it leaves is either the one the envelope held before the call, or a
    counter value whose score is positive; when the deadline has passed at
    the first poll no candidate is evaluated and the envelope is returned as
    it was. *)
Theorem proveWork_terminates_keeps_or_improves
    (bo : byte_order) (clk : Clock) (_ms : Z) (e : Envelope) (k fuel : nat) :
  deadline_at clk _ms k -> (k <= fuel)%nat ->
  exists e',
    proveWork bo clk fuel _ms e = Done e' /\
    (m_expiry e', m_ttl e', m_topic e', m_data e')
    = (m_expiry e, m_ttl e, m_topic e, m_data e) /\
    (m_nonce e' = m_nonce e \/
     (0 <= m_nonce e' < 2 ^ 32 /\
      0 < pow_score bo (sha3_WithoutNonce e) (m_nonce e'))) /\
    (deadline_at clk _ms 1 -> e' = e).
Proof.
  intros Hclk Hfuel.
  destruct (proveWork_result bo clk _ms e k fuel Hclk Hfuel)
    as (st & Hloop & Hpw).
  eexists. split; [exact Hpw|]. cbn [m_expiry m_ttl m_topic m_data m_nonce].
  split; [reflexivity|]. split.
  - assert (Hinv : search_inv bo (sha3_WithoutNonce e) (m_nonce e) st).
    { apply (pow_loop_inv bo _ clk _ (m_nonce e) _ _ _ _ Hloop).
      unfold search_inv. cbn [pow_n pow_best pow_nonce].
      split; [lia | left; split; reflexivity]. }
    destruct Hinv as [_ [[Hn _]|(Hr & Hb & Hs)]].
    + left. exact Hn.
    + right. split; [exact Hr | rewrite <- Hs; exact Hb].
  - intros [_ Hnow]. destruct fuel as [|fuel]; [destruct Hclk; lia|].
    cbn [pow_loop] in Hloop.
    destruct (clock_now clk 1 <? clock_now clk 0 + _ms * ticks_per_ms clk)
      eqn:E; [apply Z.ltb_lt in E; lia|].
    injection Hloop as <-. destruct e. reflexivity.
Qed.

(** C10: after any number [i] of evaluations the counter is [i] modulo
    [2^32] and the 28 leading bytes of the hashed block are zero; the block
    hashed [2^32] evaluations later is the same block; and once [2^32]
    evaluations are done, no further evaluation changes the best score or
    the nonce.  The loop of [proveWork] is such a run of evaluations. *)
Theorem pow_counter_wraps
    (bo : byte_order) (base : h256) (nonce0 : Z) (i j : N) :
  let run_ := fun t => N.iter t (pow_step bo base) (mkPow 0 0 nonce0) in
  pow_n (run_ i) = Z.of_N i mod 2 ^ 32 /\
  firstn 28 (d1_block bo (pow_n (run_ i))) = zero_hash 28 /\
  d1_block bo (pow_n (run_ (i + 2 ^ 32)%N)) = d1_block bo (pow_n (run_ i)) /\
  pow_best (run_ (2 ^ 32 + i + j)%N) = pow_best (run_ (2 ^ 32 + i)%N) /\
  pow_nonce (run_ (2 ^ 32 + i + j)%N) = pow_nonce (run_ (2 ^ 32 + i)%N) /\
  (forall clk _then fuel st',
      pow_loop bo base clk _then fuel 1 (mkPow 0 0 nonce0) = Done st' ->
      exists rounds : N, st' = run_ (1024 * rounds)%N).
Proof.
  cbv zeta.
  destruct (search_covers bo base nonce0 i) as [Hi _].
  destruct (search_covers bo base nonce0 (i + 2 ^ 32)) as [Hi' _].
  cbv zeta in Hi, Hi'.
  split; [exact Hi|]. split; [apply d1_block_high_bytes|]. split.
  { rewrite Hi, Hi', N2Z.inj_add. change (Z.of_N (2 ^ 32)) with (1 * 2 ^ 32).
    rewrite Z_mod_plus_full. reflexivity. }
  assert (Hsat :
    pow_best (N.iter (2 ^ 32 + i + j) (pow_step bo base) (mkPow 0 0 nonce0))
    = pow_best (N.iter (2 ^ 32 + i) (pow_step bo base) (mkPow 0 0 nonce0)) /\
    pow_nonce (N.iter (2 ^ 32 + i + j) (pow_step bo base) (mkPow 0 0 nonce0))
    = pow_nonce (N.iter (2 ^ 32 + i) (pow_step bo base) (mkPow 0 0 nonce0))).
  { induction j as [|j IH] using N.peano_ind.
    - rewrite N.add_0_r. split; reflexivity.
    - destruct (search_saturated bo base nonce0 (i + j)) as [Hb Hn].
      cbv zeta in Hb, Hn.
      replace (2 ^ 32 + i + N.succ j)%N with (2 ^ 32 + (i + j) + 1)%N by lia.
      replace (2 ^ 32 + i + j)%N with (2 ^ 32 + (i + j))%N in IH by lia.
      rewrite Hb, Hn. exact IH. }
  split; [apply Hsat|]. split; [apply Hsat|].
  intros clk _then fuel st' Hrun.
  apply (pow_loop_evaluations bo base clk _then _ _ _ _ Hrun).
Qed.

(** On a big-endian host [workProved] returns the best score of the search
    whenever the search assigned the nonce. *)
Lemma workProved_big_endian
    (clk : Clock) (_then : Z) (fuel : nat) (e : Envelope) (st : pow_state) :
  pow_loop BigEndian (sha3_WithoutNonce e) clk _then fuel 1
    (mkPow 0 0 (m_nonce e)) = Done st ->
  0 < pow_best st ->
  workProved (mkEnvelope (m_expiry e) (m_ttl e) (m_topic e) (m_data e)
                (pow_nonce st)) = pow_best st.
Proof.
  intros Hloop Hbest.
  assert (Hinv : search_inv BigEndian (sha3_WithoutNonce e) (m_nonce e) st).
  { apply (pow_loop_inv BigEndian _ clk _ (m_nonce e) _ _ _ _ Hloop).
    unfold search_inv. cbn [pow_n pow_best pow_nonce].
    split; [lia | left; split; reflexivity]. }
  destruct Hinv as [_ [[_ H0]|(Hr & _ & Hs)]]; [lia|].
  rewrite Hs. unfold workProved, pow_score, sha3_WithoutNonce.
  cbn [m_expiry m_ttl m_topic m_data m_nonce].
  rewrite d1_block_big_endian by exact Hr. reflexivity.
Qed.

End Search.

(** ** The small instance: laws, runs and counterexamples *)

Lemma fixed_length (len : nat) (b : bytes) : length (Toy.fixed len b) = len.
Proof.
  unfold Toy.fixed, zero_hash.
  rewrite length_firstn, length_app, repeat_length. lia.
Qed.

Lemma pub_length (s : Secret) : length (Toy.pub s) = 64%nat.
Proof. unfold Toy.pub. rewrite length_app, !fixed_length. reflexivity. Qed.

Lemma bytes_eqb_refl (a : bytes) : Toy.bytes_eqb a a = true.
Proof.
  unfold Toy.bytes_eqb. destruct (list_eq_dec Z.eq_dec a a); congruence.
Qed.

Lemma bytes_eqb_length (a b : bytes) :
  length a <> length b -> Toy.bytes_eqb a b = false.
Proof.
  intros H. unfold Toy.bytes_eqb.
  destruct (list_eq_dec Z.eq_dec a b) as [->|]; congruence.
Qed.

(** The small instance satisfies the laws. *)
Lemma toy_laws : CryptoLaws Toy.crypto.
Proof.
  constructor.
  - intros s k plain Hk _. change (Val (Toy.pub s) = Val k) in Hk. injection Hk as <-.
    exists (Toy.pub s ++ plain). split; [reflexivity|].
    cbn. unfold Toy.toy_decrypt.
    rewrite (firstn_exact _ 64 _ (pub_length s)), bytes_eqb_refl.
    rewrite (skipn_exact _ 64 _ (pub_length s)). reflexivity.
  - intros s k h Hk _. change (Val (Toy.pub s) = Val k) in Hk. injection Hk as <-.
    exists (Toy.fixed 32 s ++ Toy.fixed 32 h ++ [27]).
    split; [reflexivity|]. split.
    + rewrite !length_app, !fixed_length. reflexivity.
    + cbv beta iota delta [recover Toy.crypto].
      rewrite (skipn_exact _ 32 _ (fixed_length 32 s)).
      rewrite (firstn_exact _ 32 _ (fixed_length 32 h)), bytes_eqb_refl.
      rewrite (firstn_exact _ 32 _ (fixed_length 32 s)). reflexivity.
Qed.

Lemma is_nonzero_app (a b : bytes) :
  is_nonzero (a ++ b) = is_nonzero a || is_nonzero b.
Proof. apply existsb_app. Qed.

Lemma is_nonzero_firstn (n : nat) (a : bytes) :
  is_nonzero a = false -> is_nonzero (firstn n a) = false.
Proof.
  revert a. induction n as [|n IH]; intros [|x a] H; try reflexivity.
  cbn in H |- *. apply orb_false_iff in H. destruct H as [Hx Ha].
  rewrite Hx. cbn. now apply IH.
Qed.

(** In the small instance the key pair of a zero secret has no public key. *)
Lemma toy_zero_secret (s : Secret) (k : Public) :
  is_nonzero s = false -> KeyPair_pub (Crypto := Toy.crypto) s = Val k ->
  is_nonzero k = false.
Proof.
  intros Hs Hk. change (Val (Toy.pub s) = Val k) in Hk. injection Hk as <-.
  assert (Hf : is_nonzero (Toy.fixed 32 s) = false).
  { unfold Toy.fixed. apply is_nonzero_firstn.
    rewrite is_nonzero_app, Hs, is_nonzero_zero_hash. reflexivity. }
  unfold Toy.pub. rewrite is_nonzero_app, Hf. reflexivity.
Qed.

(** C1, counterexample: the payload "hello" sealed with no signer and no
    recipient under one topic gives an envelope whose data is the bare
    frame; no secret and no topic index open it, every attempt ends in the
    empty message, whose payload is not "hello". *)
Lemma seal_without_recipient_is_not_opened :
  seal (C := Toy.crypto) LittleEndian Toy.clock 1 1000
    (mkMessage Toy.hello (zero_hash 64) (zero_hash 64)) (zero_hash 32)
    [Toy.topic] 60 0
  = Done (mkEnvelope 1060 60 [[1; 2; 3; 4]] (0 :: Toy.hello) 0) /\
  (forall (s : Secret) (idx : Z),
      open (C := Toy.crypto) idx
        (mkEnvelope 1060 60 [[1; 2; 3; 4]] (0 :: Toy.hello) 0) s
      = Val empty_Message) /\
  m_payload empty_Message <> Toy.hello.
Proof.
  split; [vm_compute; reflexivity|]. split; [|discriminate].
  intros s idx. unfold open.
  apply (Message_ctor_of_run _ _ _ NotDecrypted).
  apply Message_run_not_decrypted. unfold decrypt_step.
  destruct (is_nonzero s).
  - cbn [m_data decrypt Toy.crypto]. unfold Toy.toy_decrypt.
    rewrite bytes_eqb_length; [reflexivity|].
    rewrite pub_length. vm_compute. discriminate.
  - reflexivity.
Qed.

(** C3, the failing run: on a little-endian host the block hashed for the
    counter 1 is the big-endian image of [2^24], not of 1.  With the small
    instance, one round of the search leaves the best score 15, found at the
    counter 255, and stores the nonce 255; [workProved] then hashes the
    big-endian image of 255 and returns 7. *)
Theorem proveWork_little_endian_mismatch :
  d1_block LittleEndian 1 = h256_of_u256 (2 ^ 24) /\
  d1_block LittleEndian 1 <> h256_of_u256 1 /\
  pow_loop (C := Toy.crypto) LittleEndian
    (sha3_WithoutNonce (C := Toy.crypto) (mkEnvelope 0 0 [] [] 0))
    Toy.clock 2 2 1 (mkPow 0 0 0)
  = Done (mkPow 1024 15 255) /\
  pow_score (C := Toy.crypto) LittleEndian
    (sha3_WithoutNonce (C := Toy.crypto) (mkEnvelope 0 0 [] [] 0)) 255 = 15 /\
  proveWork (C := Toy.crypto) LittleEndian Toy.clock 2 2 (mkEnvelope 0 0 [] [] 0)
  = Done (mkEnvelope 0 0 [] [] 255) /\
  workProved (C := Toy.crypto) (mkEnvelope 0 0 [] [] 255) = 7.
Proof.
  split; [vm_compute; reflexivity|].
  split; [vm_compute; discriminate|].
  repeat split; vm_compute; reflexivity.
Qed.

(** C4, counterexample: with a zero budget the deadline has passed at the
    first poll; the envelope comes back with the nonce it came with, 7 or 9
    alike, so no value is stored that the call produced. *)
Lemma proveWork_zero_budget_stores_nothing :
  proveWork (C := Toy.crypto) LittleEndian Toy.clock 1 0
    (mkEnvelope 0 0 [] [] 7) = Done (mkEnvelope 0 0 [] [] 7) /\
  proveWork (C := Toy.crypto) LittleEndian Toy.clock 1 0
    (mkEnvelope 0 0 [] [] 9) = Done (mkEnvelope 0 0 [] [] 9) /\
  ~ (exists n, forall v,
        proveWork (C := Toy.crypto) LittleEndian Toy.clock 1 0
          (mkEnvelope 0 0 [] [] v) = Done (mkEnvelope 0 0 [] [] n)).
Proof.
  split; [vm_compute; reflexivity|]. split; [vm_compute; reflexivity|].
  intros [n Hn]. pose proof (Hn 7) as H7. pose proof (Hn 9) as H9.
  vm_compute in H7, H9. congruence.
Qed.

(** ** Runs of the theorems on the small instance *)

Lemma populate_short_signed_frame_witness :
  [1; 104; 105] <> [] /\
  Z.land (nth 0 [1; 104; 105] 0) ContainsSignature <> 0 /\
  size [1; 104; 105] < 1 + sizeof_Signature /\
  populate (C := Toy.crypto) [1; 104; 105] empty_Message
  = (Val true, mkMessage [104; 105] (zero_hash 64) (zero_hash 64)).
Proof.
  assert (H1 : [1; 104; 105] <> []) by discriminate.
  assert (H2 : Z.land (nth 0 [1; 104; 105] 0) ContainsSignature <> 0)
    by (vm_compute; discriminate).
  assert (H3 : size [1; 104; 105] < 1 + sizeof_Signature)
    by (vm_compute; reflexivity).
  split; [exact H1|]. split; [exact H2|]. split; [exact H3|].
  exact (proj2 (populate_short_signed_frame (C := Toy.crypto)
                  [1; 104; 105] H1 H2 H3)).
Defined.

Lemma recipient_only_on_direct_path_witness :
  Message_run (C := Toy.crypto)
    (mkEnvelope 0 0 [] (Toy.pub Toy.secret ++ [0; 104]) 0) Toy.secret 0
  = (Val Opened, mkMessage [104] (zero_hash 64) (Toy.pub Toy.secret)) /\
  KeyPair_pub (Crypto := Toy.crypto) Toy.secret = Val (Toy.pub Toy.secret) /\
  (is_nonzero Toy.secret = false -> is_nonzero (Toy.pub Toy.secret) = false).
Proof.
  assert (H : Message_run (C := Toy.crypto)
                (mkEnvelope 0 0 [] (Toy.pub Toy.secret ++ [0; 104]) 0)
                Toy.secret 0
              = (Val Opened,
                 mkMessage [104] (zero_hash 64) (Toy.pub Toy.secret)))
    by (vm_compute; reflexivity).
  split; [exact H|].
  destruct (recipient_only_on_direct_path (C := Toy.crypto) toy_zero_secret
              _ _ _ _ H) as (Hk & _ & Hz).
  split; [exact Hk | exact Hz].
Defined.

Lemma one_byte_frame_opens_empty_witness :
  decrypt_step (C := Toy.crypto)
    (mkEnvelope 0 0 [] (Toy.pub Toy.secret ++ [0]) 0) Toy.secret 0
  = Val (Some [0]) /\
  Z.land 0 ContainsSignature = 0 /\
  exists m,
    Message_ctor (C := Toy.crypto)
      (mkEnvelope 0 0 [] (Toy.pub Toy.secret ++ [0]) 0) Toy.secret 0 = Val m /\
    m_payload m = [] /\ m_from m = zero_hash 64.
Proof.
  assert (H1 : decrypt_step (C := Toy.crypto)
                 (mkEnvelope 0 0 [] (Toy.pub Toy.secret ++ [0]) 0)
                 Toy.secret 0 = Val (Some [0]))
    by (vm_compute; reflexivity).
  assert (H2 : Z.land 0 ContainsSignature = 0) by reflexivity.
  split; [exact H1|]. split; [exact H2|].
  destruct (one_byte_frame_opens_empty (C := Toy.crypto) _ _ _ _ H1 H2)
    as (_ & m & Hm & Hp & Hf & _).
  exists m. repeat split; assumption.
Defined.

Lemma seal_open_round_trip_witness :
  exists e m,
    seal (C := Toy.crypto) LittleEndian Toy.clock 1 1000
      (mkMessage Toy.hello (zero_hash 64) (Toy.pub Toy.secret)) Toy.secret
      [Toy.topic] 60 0 = Done e /\
    open (C := Toy.crypto) 0 e Toy.secret = Val m /\
    m_payload m = Toy.hello.
Proof.
  apply (seal_open_round_trip (C := Toy.crypto) (L := toy_laws)
           LittleEndian Toy.clock 1 1 1000 Toy.hello (zero_hash 64)
           (Toy.pub Toy.secret) Toy.secret Toy.secret (Toy.pub Toy.secret)
           [Toy.topic] 60 0 0).
  - intros _. split; reflexivity.
  - split; reflexivity.
  - reflexivity.
  - split; [apply le_n | vm_compute; discriminate].
  - apply le_n.
Defined.

Lemma sealed_sender_is_recovered_witness :
  exists e m,
    seal (C := Toy.crypto) LittleEndian Toy.clock 1 1000
      (mkMessage Toy.hello (zero_hash 64) (Toy.pub Toy.secret)) Toy.secret
      [Toy.topic] 60 0 = Done e /\
    Message_run (C := Toy.crypto) e Toy.secret 0 = (Val Opened, m) /\
    (is_nonzero Toy.secret = true ->
     KeyPair_pub (Crypto := Toy.crypto) Toy.secret = Val (m_from m)) /\
    (is_nonzero Toy.secret = false -> m_from m = zero_hash 64).
Proof.
  apply (sealed_sender_is_recovered (C := Toy.crypto) (L := toy_laws)
           LittleEndian Toy.clock 1 1 1000 Toy.hello (zero_hash 64)
           (Toy.pub Toy.secret) Toy.secret Toy.secret (Toy.pub Toy.secret)
           [Toy.topic] 60 0 0).
  - intros _. split; reflexivity.
  - split; reflexivity.
  - reflexivity.
  - split; [apply le_n | vm_compute; discriminate].
  - apply le_n.
Defined.

Lemma proveWork_terminates_keeps_or_improves_witness :
  exists e',
    proveWork (C := Toy.crypto) LittleEndian Toy.clock 1 0
      (mkEnvelope 0 0 [] [] 7) = Done e' /\
    (m_expiry e', m_ttl e', m_topic e', m_data e') = (0, 0, [], []) /\
    (m_nonce e' = 7 \/
     (0 <= m_nonce e' < 2 ^ 32 /\
      0 < pow_score (C := Toy.crypto) LittleEndian
            (sha3_WithoutNonce (C := Toy.crypto) (mkEnvelope 0 0 [] [] 7))
            (m_nonce e'))) /\
    (deadline_at Toy.clock 0 1 -> e' = mkEnvelope 0 0 [] [] 7).
Proof.
  apply (proveWork_terminates_keeps_or_improves (C := Toy.crypto)
           LittleEndian Toy.clock 0 (mkEnvelope 0 0 [] [] 7) 1 1).
  - split; [apply le_n | vm_compute; discriminate].
  - apply le_n.
Defined.

(** ** Further properties of opening *)

Section OpeningMore.

Context {C : Crypto}.

(** [populate] never assigns [m_to]. *)
Lemma populate_keeps_to (b : bytes) (this m1 : Message) (r : outcome bool) :
  populate b this = (r, m1) -> m_to m1 = m_to this.
Proof.
  unfold populate.
  destruct (size b =? 0).
  { unfold ret. intros H. injection H as _ <-. reflexivity. }
  destruct (negb (Z.land (nth 0 b 0) ContainsSignature =? 0)
            && (sizeof_Signature + 1 <=? size b)).
  - unfold bind, call, set_from, get_from, set_payload, ret. cbn [m_from].
    destruct (recover _ _) as [k|].
    + destruct (is_nonzero k); cbn [negb]; intros H; injection H as _ <-;
        reflexivity.
    + intros H. injection H as _ <-. reflexivity.
  - unfold bind, set_payload, ret. intros H. injection H as _ <-. reflexivity.
Qed.

(** The signed branch of [populate], for any flags byte with bit 0 set: the
    last 65 bytes are the signature, what lies between is the payload, and
    the sender is what [recover] yields; a zero key from [recover] makes
    [populate] fail with the payload not assigned. *)
Theorem populate_signed (f : byte) (p sg : bytes) (this : Message) :
  Z.land f ContainsSignature <> 0 -> length sg = 65%nat ->
  populate (f :: p ++ sg) this =
  match recover sg (sha3 p) with
  | Val k =>
      if is_nonzero k
      then (Val true, mkMessage p k (m_to this))
      else (Val false, mkMessage (m_payload this) k (m_to this))
  | Thrown => (Thrown, this)
  end.
Proof.
  intros Hf Hlen. unfold populate.
  assert (Hsize : size (f :: p ++ sg) = 1 + size p + 65).
  { rewrite size_cons, size_app. unfold size at 2. rewrite Hlen. lia. }
  pose proof (size_nonneg p) as Hp.
  rewrite Hsize.
  destruct (1 + size p + 65 =? 0) eqn:E0; [apply Z.eqb_eq in E0; lia|].
  cbn [nth].
  destruct (Z.land f ContainsSignature =? 0) eqn:Ef;
    [apply Z.eqb_eq in Ef; contradiction|].
  unfold sizeof_Signature. cbn [negb andb].
  destruct (65 + 1 <=? 1 + size p + 65) eqn:E1; [|apply Z.leb_gt in E1; lia].
  replace (1 + size p + 65 - 65 - 1) with (size p) by lia.
  assert (Hpay : cropped (f :: p ++ sg) 1 (size p) = p).
  { unfold cropped. rewrite Hsize.
    destruct (1 + size p <=? 1 + size p + 65) eqn:E2;
      [|apply Z.leb_gt in E2; lia].
    change (Z.to_nat 1) with 1%nat. cbn [skipn].
    unfold size. rewrite Nat2Z.id. apply firstn_exact. reflexivity. }
  rewrite Hpay, to_nat_succ_size, skipn_frame.
  change (Z.to_nat 65) with 65%nat.
  rewrite firstn_whole by exact Hlen.
  unfold bind, call, set_from, get_from, set_payload, ret.
  destruct (recover sg (sha3 p)) as [k|]; [|reflexivity].
  cbn [m_from m_payload m_to]. destruct (is_nonzero k); reflexivity.
Qed.

(** Of the flags byte, [populate] reads bit 0 only. *)
Theorem populate_reads_bit_0 (f f' : byte) (r : bytes) (this : Message) :
  Z.land f ContainsSignature = Z.land f' ContainsSignature ->
  populate (f :: r) this = populate (f' :: r) this.
Proof.
  intros H. unfold populate. rewrite !size_cons. cbn [nth]. rewrite H.
  destruct (1 + size r =? 0); [reflexivity|].
  destruct (negb (Z.land f' ContainsSignature =? 0)
            && (sizeof_Signature + 1 <=? 1 + size r)) eqn:E.
  - unfold cropped. rewrite !size_cons.
    destruct (1 + (1 + size r - sizeof_Signature - 1) <=? 1 + size r) eqn:E1.
    + assert (Hpos : 0 <= 1 + size r - sizeof_Signature - 1).
      { apply andb_true_iff in E. destruct E as [_ E].
        apply Z.leb_le in E. lia. }
      change (Z.to_nat 1) with 1%nat. cbn [skipn].
      assert (Hs : forall a : byte,
                 skipn (Z.to_nat (1 + size (firstn (Z.to_nat (1 + size r - sizeof_Signature - 1)) r))) (a :: r)
                 = skipn (Z.to_nat (size (firstn (Z.to_nat (1 + size r - sizeof_Signature - 1)) r))) r).
      { intros a. pose proof (size_nonneg (firstn (Z.to_nat (1 + size r - sizeof_Signature - 1)) r)).
        rewrite Z2Nat.inj_add by lia. reflexivity. }
      rewrite !Hs. reflexivity.
    + reflexivity.
  - rewrite !cropped_from_tail. reflexivity.
Qed.

(** The recipient is assigned on full success only: however else the
    constructor ends, [m_to] is the zero key; after an early [return]
    nothing is populated, and after a [populate] that returned [false] the
    payload is empty and the sender is no key. *)
Theorem recipient_unset_unless_opened
    (e : Envelope) (s : Secret) (idx : Z) (x : ctor_exit) (m : Message) :
  Message_run e s idx = (Val x, m) ->
  x <> Opened ->
  m_to m = zero_hash 64 /\
  (x = NotDecrypted -> m = empty_Message) /\
  (x = NotPopulated -> m_payload m = [] /\ is_nonzero (m_from m) = false).
Proof.
  intros Hrun Hx.
  destruct (decrypt_step e s idx) as [[b|]|] eqn:Ed.
  - rewrite (Message_run_decrypted _ _ _ _ Ed) in Hrun.
    destruct (populate b empty_Message) as [r m1] eqn:Ep.
    pose proof (populate_keeps_to _ _ _ _ Ep) as Hto.
    destruct r as [[|]|].
    + destruct (KeyPair_pub s); injection Hrun as <- <-; [congruence|].
      split; [exact Hto|]. split; discriminate.
    + injection Hrun as <- <-. split; [exact Hto|]. split; [discriminate|].
      intros _.
      assert (Habs : is_absent m1 = true)
        by (apply (populate_refused _ _ _ Ep); discriminate).
      unfold is_absent in Habs.
      apply andb_true_iff in Habs. destruct Habs as [Habs _].
      apply andb_true_iff in Habs. destruct Habs as [Hp Hf].
      apply Z.eqb_eq in Hp. apply negb_true_iff in Hf. split; [|exact Hf].
      unfold size in Hp. destruct (m_payload m1); [reflexivity|].
      cbn [length] in Hp. lia.
    + injection Hrun as <- <-. split; [exact Hto|]. split; discriminate.
  - rewrite (Message_run_not_decrypted _ _ _ Ed) in Hrun.
    injection Hrun as <- <-. split; [reflexivity|]. split; [reflexivity|].
    discriminate.
  - rewrite (Message_run_decrypt_thrown _ _ _ Ed) in Hrun.
    injection Hrun as <- <-. split; [reflexivity|]. split; discriminate.
Qed.

(** The topic-indexed branch refuses data shorter than 32 bytes per topic
    before any primitive is called. *)
Theorem short_data_is_not_decrypted (e : Envelope) (s : Secret) (idx : Z) :
  is_nonzero s = false ->
  size (m_data e) < topics_size e * 32 ->
  Message_run e s idx = (Val NotDecrypted, empty_Message).
Proof.
  intros Hs Hshort. apply Message_run_not_decrypted.
  unfold decrypt_step. rewrite Hs.
  apply Z.ltb_lt in Hshort. rewrite Hshort. reflexivity.
Qed.

(** [32 * _topicIndex] wraps on [unsigned]: topic indices that differ by
    [2^27] select the same key slot, and the constructor cannot tell them
    apart. *)
Theorem topic_index_wraps (e : Envelope) (s : Secret) (idx : Z) :
  decrypt_step e s (idx + 2 ^ 27) = decrypt_step e s idx /\
  Message_run e s (idx + 2 ^ 27) = Message_run e s idx.
Proof.
  assert (Hd : decrypt_step e s (idx + 2 ^ 27) = decrypt_step e s idx).
  { unfold decrypt_step.
    replace (32 * (idx + 2 ^ 27)) with (32 * idx + 1 * 2 ^ 32) by lia.
    rewrite Z_mod_plus_full. reflexivity. }
  split; [exact Hd|].
  unfold Message_run, try_catch, Message_try, bind, call. rewrite Hd.
  reflexivity.
Qed.

End OpeningMore.

(** ** Further properties of sealing *)

Section SealingMore.

Context {C : Crypto}.

Lemma proveWork_fields
    (bo : byte_order) (clk : Clock) (fuel : nat) (_ms : Z) (e e' : Envelope) :
  proveWork bo clk fuel _ms e = Done e' ->
  (m_expiry e', m_ttl e', m_topic e', m_data e')
  = (m_expiry e, m_ttl e, m_topic e, m_data e) /\
  (m_nonce e' = m_nonce e \/ 0 <= m_nonce e' < 2 ^ 32).
Proof.
  unfold proveWork.
  destruct (pow_loop bo (sha3_WithoutNonce e) clk _ fuel 1 _) as [st| | |] eqn:El;
    try discriminate.
  intros H. injection H as <-. cbn [m_expiry m_ttl m_topic m_data m_nonce].
  split; [reflexivity|].
  assert (Hinv : search_inv bo (sha3_WithoutNonce e) (m_nonce e) st).
  { apply (pow_loop_inv bo _ clk _ (m_nonce e) _ _ _ _ El).
    unfold search_inv. cbn [pow_n pow_best pow_nonce].
    split; [lia | left; split; reflexivity]. }
  destruct Hinv as [_ [[Hn _]|(Hr & _)]]; [left | right]; assumption.
Qed.

Lemma seal_done
    (bo : byte_order) (clk : Clock) (fuel : nat) (time0 : Z) (this : Message)
    (_from : Secret) (_topic : list h256) (_ttl _work : Z) (e : Envelope) :
  seal bo clk fuel time0 this _from _topic _ttl _work = Done e ->
  exists data,
    seal_data this _from = Done data /\
    proveWork bo clk fuel _work
      (mkEnvelope ((time0 + _ttl) mod 2 ^ 32) _ttl (abridge _topic) data 0)
    = Done e.
Proof.
  unfold seal. destruct (seal_data this _from) as [data| | |]; try discriminate.
  intros H. now exists data.
Qed.

(** Whatever [seal] returns has the expiry [time(0) + _ttl] reduced to
    [unsigned], the ttl and the abridged topics it was given, and a nonce
    below [2^32]. *)
Theorem sealed_envelope_fields
    (bo : byte_order) (clk : Clock) (fuel : nat) (time0 : Z) (this : Message)
    (_from : Secret) (_topic : list h256) (_ttl _work : Z) (e : Envelope) :
  seal bo clk fuel time0 this _from _topic _ttl _work = Done e ->
  m_expiry e = (time0 + _ttl) mod 2 ^ 32 /\
  0 <= m_expiry e < 2 ^ 32 /\
  m_ttl e = _ttl /\
  m_topic e = abridge _topic /\
  0 <= m_nonce e < 2 ^ 32.
Proof.
  intros Hseal. destruct (seal_done _ _ _ _ _ _ _ _ _ _ Hseal) as (data & _ & Hpw).
  destruct (proveWork_fields _ _ _ _ _ _ Hpw) as [Hf Hn].
  cbn [m_expiry m_ttl m_topic m_data m_nonce] in Hf, Hn.
  injection Hf as He Ht Htp _.
  rewrite He, Ht, Htp.
  repeat split; try (apply Z.mod_pos_bound; lia); destruct Hn; lia.
Qed.

(** An envelope that [seal] returns for a signer passed the [assert]: its
    frame is the flags byte 1, the payload and a 65-byte signature from
    which [recover] yields the public key of the signer's key pair.  The
    data is that frame, or what [encrypt] made of it for the recipient. *)
Theorem sealed_signature_recovers
    (bo : byte_order) (clk : Clock) (fuel : nat) (time0 : Z) (this : Message)
    (_from : Secret) (_topic : list h256) (_ttl _work : Z) (e : Envelope) :
  seal bo clk fuel time0 this _from _topic _ttl _work = Done e ->
  is_nonzero _from = true ->
  exists sg k,
    length sg = 65%nat /\
    recover sg (sha3 (m_payload this)) = Val k /\
    KeyPair_pub _from = Val k /\
    (if is_nonzero (m_to this)
     then encrypt (m_to this) (1 :: m_payload this ++ sg) = Val (m_data e)
     else m_data e = 1 :: m_payload this ++ sg).
Proof.
  intros Hseal Hnz.
  destruct (seal_done _ _ _ _ _ _ _ _ _ _ Hseal) as (data & Hdata & Hpw).
  destruct (proveWork_fields _ _ _ _ _ _ Hpw) as [Hf _].
  cbn [m_expiry m_ttl m_topic m_data] in Hf. injection Hf as _ _ _ Hd.
  unfold seal_data, seal_input in Hdata. rewrite Hnz in Hdata.
  destruct (sign _from (sha3 (m_payload this))) as [sg0|]; [|discriminate].
  set (sg := firstn (Z.to_nat sizeof_Signature)
               (sg0 ++ zero_hash (Z.to_nat sizeof_Signature))) in *.
  assert (Hlen : length sg = 65%nat).
  { unfold sg, zero_hash. change (Z.to_nat sizeof_Signature) with 65%nat.
    rewrite length_firstn, length_app, repeat_length. lia. }
  rewrite to_nat_succ_size, skipn_frame in Hdata.
  change (Z.to_nat sizeof_Signature) with 65%nat in Hdata.
  rewrite firstn_whole in Hdata by exact Hlen.
  destruct (recover sg (sha3 (m_payload this))) as [r|] eqn:Er; [|discriminate].
  destruct (KeyPair_pub _from) as [k|] eqn:Ek; [|discriminate].
  destruct (list_eq_dec Z.eq_dec r k) as [->|]; [|discriminate].
  exists sg, k. split; [exact Hlen|]. split; [exact Er|]. split; [reflexivity|].
  cbn [nth] in Hdata. change (Z.lor 0 ContainsSignature) with 1 in Hdata.
  destruct (is_nonzero (m_to this)).
  - destruct (encrypt (m_to this) (1 :: m_payload this ++ sg)) as [c|];
      [|discriminate].
    injection Hdata as <-. rewrite Hd. reflexivity.
  - injection Hdata as <-. exact Hd.
Qed.

(** Sealed without a recipient, the message is not confidential: the data is
    the frame itself, and [populate] reads payload and sender from it with no
    secret at all. *)
Theorem sealed_without_recipient_is_plain
    {L : CryptoLaws C}
    (bo : byte_order) (clk : Clock) (fuel k : nat) (time0 : Z)
    (p : bytes) (mf to : Public) (_from : Secret) (kf : Public)
    (_topic : list h256) (_ttl _work : Z) :
  is_nonzero to = false ->
  (is_nonzero _from = true -> valid_key_pair _from kf) ->
  deadline_at clk _work k -> (k <= fuel)%nat ->
  exists e,
    seal bo clk fuel time0 (mkMessage p mf to) _from _topic _ttl _work = Done e /\
    seal_input p _from = Done (m_data e) /\
    populate (m_data e) empty_Message
    = (Val true, mkMessage p (sealed_sender _from kf) (zero_hash 64)).
Proof.
  intros Hto Hfrom Hclk Hfuel.
  destruct (populate_seal_input p _from kf empty_Message Hfrom eq_refl)
    as (input & Hin & Hpop).
  destruct (proveWork_result bo clk _work
              (mkEnvelope ((time0 + _ttl) mod 2 ^ 32) _ttl (abridge _topic)
                 input 0) k fuel Hclk Hfuel) as (st & _ & Hpw).
  eexists. split.
  - unfold seal, seal_data. cbn [m_payload m_to]. rewrite Hin, Hto. exact Hpw.
  - cbn [m_data]. split; [exact Hin | exact Hpop].
Qed.

End SealingMore.

(** ** Further properties of the search *)

Section SearchMore.

Context {C : Crypto}.
Variable bo : byte_order.
Variable base : h256.

(** The best score never decreases as the search goes on. *)
Theorem pow_best_monotone (st : pow_state) (i j : N) :
  pow_best (N.iter i (pow_step bo base) st)
  <= pow_best (N.iter (i + j) (pow_step bo base) st).
Proof.
  induction j as [|j IH] using N.peano_ind.
  - rewrite N.add_0_r. lia.
  - rewrite N.add_succ_r, N.iter_succ.
    set (s1 := N.iter (i + j) (pow_step bo base) st) in *.
    set (s0 := N.iter i (pow_step bo base) st) in *.
    unfold pow_step. cbn [pow_best].
    destruct (pow_best s1 <? pow_score bo base (pow_n s1)) eqn:E;
      [apply Z.ltb_lt in E|]; lia.
Qed.

(** First found wins: within the first [2^32] evaluations the best score
    bounds the score of every counter value tried, and once it is positive
    the nonce is the least counter value that reaches it. *)
Theorem search_first_found_wins (nonce0 : Z) (i : N) :
  (i <= 2 ^ 32)%N ->
  let st := N.iter i (pow_step bo base) (mkPow 0 0 nonce0) in
  (forall t, 0 <= t < Z.of_N i -> pow_score bo base t <= pow_best st) /\
  ((pow_best st = 0 /\ pow_nonce st = nonce0) \/
   (0 < pow_best st /\ 0 <= pow_nonce st < Z.of_N i /\
    pow_score bo base (pow_nonce st) = pow_best st /\
    forall t, 0 <= t < pow_nonce st -> pow_score bo base t < pow_best st)).
Proof.
  induction i as [|i IH] using N.peano_ind; intros Hi.
  - cbn. split; [intros t Ht; lia | left; split; reflexivity].
  - assert (Hi' : (i < 2 ^ 32)%N) by lia.
    specialize (IH ltac:(lia)). cbv zeta in IH |- *.
    rewrite N.iter_succ.
    destruct (search_covers bo base nonce0 i) as [Hn _]. cbv zeta in Hn.
    set (st := N.iter i (pow_step bo base) (mkPow 0 0 nonce0)) in *.
    assert (Hni : pow_n st = Z.of_N i).
    { rewrite Hn. apply Z.mod_small.
      assert (Z.of_N i < Z.of_N (2 ^ 32)) by lia.
      change (Z.of_N (2 ^ 32)) with (2 ^ 32) in H. lia. }
    destruct IH as [Hcov Hbest].
    unfold pow_step. cbn [pow_best pow_nonce]. rewrite Hni, N2Z.inj_succ.
    destruct (pow_best st <? pow_score bo base (Z.of_N i)) eqn:E.
    + apply Z.ltb_lt in E. split.
      * intros t Ht. destruct (Z.eq_dec t (Z.of_N i)) as [->|]; [lia|].
        specialize (Hcov t ltac:(lia)). lia.
      * right. assert (0 <= pow_best st) by (destruct Hbest as [[-> _]|[? _]]; lia).
        repeat split; try lia.
        intros t Ht. specialize (Hcov t ltac:(lia)). lia.
    + apply Z.ltb_ge in E. split.
      * intros t Ht. destruct (Z.eq_dec t (Z.of_N i)) as [->|]; [lia|].
        apply Hcov. lia.
      * destruct Hbest as [H0|(Hp & Hr & Hs & Hl)]; [left; exact H0|].
        right. repeat split; try lia. exact Hl.
Qed.

(** The deadline is polled once per round of 1024 evaluations: when the
    first [r] polls read before the deadline and the next one does not, the
    loop makes exactly [1024 * r] evaluations. *)
Theorem pow_loop_rounds (clk : Clock) (_then : Z) (r : nat) :
  forall (poll fuel : nat) (st : pow_state),
    (forall p, (poll <= p < poll + r)%nat -> clock_now clk p < _then) ->
    _then <= clock_now clk (poll + r) ->
    (r < fuel)%nat ->
    pow_loop bo base clk _then fuel poll st
    = Done (N.iter (1024 * N.of_nat r) (pow_step bo base) st).
Proof.
  induction r as [|r IH]; intros poll fuel st Hbefore Hafter Hfuel.
  - destruct fuel as [|fuel]; [lia|]. cbn [pow_loop].
    rewrite Nat.add_0_r in Hafter.
    destruct (clock_now clk poll <? _then) eqn:E; [apply Z.ltb_lt in E; lia|].
    reflexivity.
  - destruct fuel as [|fuel]; [lia|]. cbn [pow_loop].
    assert (E : (clock_now clk poll <? _then) = true)
      by (apply Z.ltb_lt, Hbefore; lia).
    rewrite E, (IH (S poll) fuel).
    + unfold pow_round.
      replace (1024 * N.of_nat (S r))%N with (1024 * N.of_nat r + 1024)%N by lia.
      rewrite N.iter_add. reflexivity.
    + intros p Hp. apply Hbefore. lia.
    + replace (S poll + r)%nat with (poll + S r)%nat by lia. exact Hafter.
    + lia.
Qed.

End SearchMore.

Lemma le_bytes_cons (k : nat) (a x : Z) :
  0 <= a < 256 -> le_bytes (S k) (a + 256 * x) = a :: le_bytes k x.
Proof.
  intros Ha. cbn [le_bytes].
  replace (a + 256 * x) with (a + x * 256) by lia.
  rewrite Z_mod_plus_full, Z_div_plus_full by lia.
  rewrite Z.mod_small, Z.div_small by exact Ha. reflexivity.
Qed.

(** On a little-endian host the block hashed for the counter [n] is the
    big-endian image of the byte-swapped counter; it is the block that
    [workProved] builds from the nonce [n] exactly when [n] is its own byte
    swap. *)
Theorem d1_block_little_endian (n : Z) :
  0 <= n < 2 ^ 32 ->
  0 <= bswap32 n < 2 ^ 32 /\
  d1_block LittleEndian n = h256_of_u256 (bswap32 n) /\
  (d1_block LittleEndian n = h256_of_u256 n <-> bswap32 n = n).
Proof.
  intros Hn.
  set (b0 := n mod 256). set (b1 := n / 2 ^ 8 mod 256).
  set (b2 := n / 2 ^ 16 mod 256). set (b3 := n / 2 ^ 24 mod 256).
  assert (H0 : 0 <= b0 < 256) by (apply Z.mod_pos_bound; lia).
  assert (H1 : 0 <= b1 < 256) by (apply Z.mod_pos_bound; lia).
  assert (H2 : 0 <= b2 < 256) by (apply Z.mod_pos_bound; lia).
  assert (H3 : 0 <= b3 < 256) by (apply Z.mod_pos_bound; lia).
  assert (Hsw : bswap32 n = b3 + 256 * (b2 + 256 * (b1 + 256 * (b0 + 256 * 0)))).
  { unfold bswap32. fold b0 b1 b2 b3. lia. }
  assert (Hnn : n = b0 + 256 * (b1 + 256 * (b2 + 256 * (b3 + 256 * 0)))).
  { unfold b0, b1, b2, b3.
    change (2 ^ 8) with 256. change (2 ^ 16) with (256 * 256).
    change (2 ^ 24) with (256 * 256 * 256).
    rewrite <- !Z.div_div by lia.
    pose proof (Z.div_mod n 256 ltac:(lia)).
    pose proof (Z.div_mod (n / 256) 256 ltac:(lia)).
    pose proof (Z.div_mod (n / 256 / 256) 256 ltac:(lia)).
    assert (n / 256 / 256 / 256 < 256).
    { rewrite !Z.div_div by lia. apply Z.div_lt_upper_bound; lia. }
    assert (0 <= n / 256 / 256 / 256) by (repeat apply Z.div_pos; lia).
    rewrite (Z.mod_small (n / 256 / 256 / 256) 256) by lia. lia. }
  assert (Hrange : 0 <= bswap32 n < 2 ^ 32) by (rewrite Hsw; lia).
  assert (Hle_n : le_bytes 4 n = [b0; b1; b2; b3]).
  { rewrite Hnn at 1. rewrite !le_bytes_cons by assumption. reflexivity. }
  assert (Hle_s : le_bytes 4 (bswap32 n) = [b3; b2; b1; b0]).
  { rewrite Hsw. rewrite !le_bytes_cons by assumption. reflexivity. }
  assert (Hblock : d1_block LittleEndian n = h256_of_u256 (bswap32 n)).
  { rewrite <- d1_block_big_endian by exact Hrange.
    unfold d1_block, store_uint32, be_bytes. rewrite Hle_n, Hle_s. reflexivity. }
  split; [exact Hrange|]. split; [exact Hblock|]. split.
  - intros Heq. rewrite <- d1_block_big_endian in Heq by exact Hn.
    unfold d1_block, store_uint32, be_bytes in Heq. rewrite Hle_n in Heq.
    apply app_inv_head in Heq. cbn [rev app] in Heq.
    injection Heq as E0 E1 E2 E3.
    rewrite Hsw. lia.
  - intros Heq. rewrite Hblock, Heq. reflexivity.
Qed.

(** ** The random code generator *)

Lemma find_first_of_at_pos (s set : Fuzz.string) (pos : Z) :
  0 < pos -> 0 < Fuzz.find_first_of_at s set pos.
Proof.
  revert pos. induction s as [|c t IH]; intros pos Hpos; cbn.
  - reflexivity.
  - destruct (Fuzz.char_in c set); [exact Hpos | apply IH; lia].
Qed.

(** The test for an undefined instruction looks at the first character of
    the name only. *)
Lemma name_is_undefined_first_char (c : Ascii.ascii) (t : Fuzz.string) :
  Fuzz.name_is_undefined (String.String c t)
  = negb (Fuzz.char_in c Fuzz.INVALID_INSTRUCTION).
Proof.
  unfold Fuzz.name_is_undefined, Fuzz.find_first_of.
  cbn [Fuzz.find_first_of_at].
  destruct (Fuzz.char_in c Fuzz.INVALID_INSTRUCTION); [reflexivity|].
  apply Z.ltb_lt, find_first_of_at_pos. lia.
Qed.

Section GeneratorProps.

Context {W : Fuzz.World}.

(** What a pass of [generate] does with the opcode it picked: when the
    first character of the opcode's name is one of the characters of
    "INVALID_INSTRUCTION", the arguments and the opcode are appended; any
    other name, the empty one included, is taken for an undefined
    instruction, which is appended bare when [useUndefinedOpCodes] is set
    and otherwise dropped, the pass being repeated with the counter
    unchanged. *)
Theorem generate_pass_by_first_char
    (o : Fuzz.RandomCodeOptions) (i : Z) (code : Fuzz.string) (k : nat) :
  let opcode := fst (Fuzz.pick_opcode o k) in
  let k1 := snd (Fuzz.pick_opcode o k) in
  let byte := Fuzz.toCompactHex opcode in
  let emit := fun c : Fuzz.string =>
    String.append c
      (if String.eqb byte String.EmptyString then Fuzz.hex_00 else byte) in
  let defined :=
    match Fuzz.instr_name opcode with
    | String.EmptyString => false
    | String.String c _ => Fuzz.char_in c Fuzz.INVALID_INSTRUCTION
    end in
  Fuzz.generate_pass o i code k =
  if defined then
    (i + 1,
     emit (String.append code (fst (Fuzz.fillArguments opcode o k1))),
     snd (Fuzz.fillArguments opcode o k1))
  else if Fuzz.useUndefinedOpCodes o then (i + 1, emit code, k1)
  else (i, code, k1).
Proof.
  cbv zeta. unfold Fuzz.generate_pass.
  destruct (Fuzz.pick_opcode o k) as [opcode k1]. cbn [fst snd].
  destruct (Fuzz.instr_name opcode) as [|c t].
  - change (Fuzz.name_is_undefined String.EmptyString) with true. cbv iota.
    destruct (Fuzz.useUndefinedOpCodes o); cbn [negb]; [reflexivity|].
    replace (i - 1 + 1) with i by lia. reflexivity.
  - rewrite name_is_undefined_first_char.
    destruct (Fuzz.char_in c Fuzz.INVALID_INSTRUCTION); cbn [negb].
    + destruct (Fuzz.fillArguments opcode o k1). reflexivity.
    + destruct (Fuzz.useUndefinedOpCodes o); cbn [negb]; [reflexivity|].
      replace (i - 1 + 1) with i by lia. reflexivity.
Qed.

Lemma pick_opcode_position (o : Fuzz.RandomCodeOptions) (k : nat) :
  snd (Fuzz.pick_opcode o k) = S k.
Proof.
  unfold Fuzz.pick_opcode, Fuzz.randOpCodeGen.
  destruct (Fuzz.probabilities_size (Fuzz.opCodeProbability o) =? 255);
    reflexivity.
Qed.

Lemma generate_loop_with_undefined (o : Fuzz.RandomCodeOptions) (size : Z) :
  Fuzz.useUndefinedOpCodes o = true ->
  forall (fuel : nat) (i : Z) (code : Fuzz.string) (k : nat),
    (Z.to_nat (size - i) < fuel)%nat ->
    exists r, Fuzz.generate_loop fuel o size i code k = Some r.
Proof.
  intros Hu. induction fuel as [|fuel IH]; intros i code k Hfuel; [lia|].
  cbn [Fuzz.generate_loop]. destruct (i <? size) eqn:E.
  - apply Z.ltb_lt in E.
    assert (Hi : fst (fst (Fuzz.generate_pass o i code k)) = i + 1).
    { unfold Fuzz.generate_pass. destruct (Fuzz.pick_opcode o k) as [opcode k1].
      rewrite Hu. cbn [negb].
      destruct (Fuzz.name_is_undefined (Fuzz.instr_name opcode));
        [reflexivity|].
      destruct (Fuzz.fillArguments opcode o k1). reflexivity. }
    destruct (Fuzz.generate_pass o i code k) as [[i' code'] k'].
    cbn [fst] in Hi. subst i'. apply IH. lia.
  - eexists. reflexivity.
Qed.

(** With [useUndefinedOpCodes] set every pass advances the counter, so
    [generate] returns after as many passes as the size it drew. *)
Theorem generate_terminates_with_undefined
    (fuel : nat) (maxOpNumber : Z) (o : Fuzz.RandomCodeOptions) (k : nat) :
  Fuzz.useUndefinedOpCodes o = true ->
  (Z.to_nat (Fuzz.rnd k 0 maxOpNumber) < fuel)%nat ->
  exists r, Fuzz.generate fuel maxOpNumber o k = Some r.
Proof.
  intros Hu Hfuel. unfold Fuzz.generate, Fuzz.refreshSeed.
  apply generate_loop_with_undefined; [exact Hu|].
  rewrite Z.sub_0_r. exact Hfuel.
Qed.

(** Without [useUndefinedOpCodes] a pass that picks an undefined
    instruction is repeated: when the size drawn is positive and every pick
    from then on is an undefined instruction, [generate] never returns. *)
Theorem generate_retries_forever
    (maxOpNumber : Z) (o : Fuzz.RandomCodeOptions) (k : nat) :
  Fuzz.useUndefinedOpCodes o = false ->
  0 < Fuzz.rnd k 0 maxOpNumber ->
  (forall j, (k < j)%nat ->
     Fuzz.name_is_undefined
       (Fuzz.instr_name (fst (Fuzz.pick_opcode o j))) = true) ->
  forall fuel, Fuzz.generate fuel maxOpNumber o k = None.
Proof.
  intros Hu Hsize Hundef fuel. unfold Fuzz.generate, Fuzz.refreshSeed.
  set (size := Fuzz.rnd k 0 maxOpNumber) in *.
  assert (Hloop : forall fuel code j, (k < j)%nat ->
             Fuzz.generate_loop fuel o size 0 code j = None).
  { clear fuel. induction fuel as [|fuel IH]; intros code j Hj; [reflexivity|].
    cbn [Fuzz.generate_loop].
    destruct (0 <? size) eqn:E; [|apply Z.ltb_ge in E; lia].
    unfold Fuzz.generate_pass.
    pose proof (Hundef j Hj) as Hn. pose proof (pick_opcode_position o j) as Hk.
    destruct (Fuzz.pick_opcode o j) as [opcode k1]. cbn [fst snd] in Hn, Hk.
    rewrite Hn, Hu. cbn [negb]. change (0 - 1 + 1) with 0.
    apply IH. lia. }
  apply Hloop. lia.
Qed.

(** [getRandomAddress] on a non-empty address list returns one of the
    listed addresses, with one call of a generator. *)
Theorem getRandomAddress_is_listed (o : Fuzz.RandomCodeOptions) (k : nat) :
  Fuzz.addressList o <> [] ->
  In (fst (Fuzz.getRandomAddress o k)) (Fuzz.addressList o) /\
  snd (Fuzz.getRandomAddress o k) = S k.
Proof.
  intros Hne. unfold Fuzz.getRandomAddress.
  destruct (Fuzz.addressList o) as [|a l] eqn:El; [congruence|].
  set (len := Z.of_nat (length (a :: l))).
  assert (Hlen : 0 < len) by (unfold len; cbn [length]; lia).
  apply Z.ltb_lt in Hlen as Hb. rewrite Hb.
  unfold Fuzz.randomUniInt, Fuzz.randUniIntGen, Fuzz.refreshSeed.
  cbn [fst snd]. split; [|reflexivity].
  apply nth_In.
  pose proof (Z.mod_pos_bound (Fuzz.rnd k 0 2147483647 mod 2 ^ 64) len Hlen).
  unfold len in *. lia.
Qed.

(** With options in the state the constructor sets up, [generate] picks its
    opcodes from the weighted generator over 0 .. 254: the opcode 255 is
    never picked. *)
Theorem pick_opcode_below_255 (o : Fuzz.RandomCodeOptions) (k : nat) :
  Fuzz.options_wf o -> Fuzz.in_range ->
  Fuzz.pick_opcode o k = (Fuzz.rnd k 0 254, S k) /\
  0 <= fst (Fuzz.pick_opcode o k) <= 254.
Proof.
  intros [Hkeys Hw] Hrange.
  assert (Hsize : Fuzz.probabilities_size (Fuzz.opCodeProbability o) = 255).
  { rewrite Hw. unfold Fuzz.probabilities_size.
    assert (Hl : length (map snd (Fuzz.mapWeights o)) = 255%nat).
    { rewrite length_map, <- (length_map fst), Hkeys, length_map, length_seq.
      reflexivity. }
    destruct (map snd (Fuzz.mapWeights o)); [discriminate|].
    rewrite Hl. reflexivity. }
  pose proof (Hrange k 0 254 ltac:(lia)) as Hr.
  assert (Hp : Fuzz.pick_opcode o k = (Fuzz.rnd k 0 254, S k)).
  { unfold Fuzz.pick_opcode. rewrite Hsize. cbn [Z.eqb Pos.eqb Z.sub].
    change (255 - 1) with 254. rewrite Z.mod_small by lia. reflexivity. }
  split; [exact Hp|]. rewrite Hp. exact Hr.
Qed.

End GeneratorProps.

(** ** The options of the generator *)

Lemma map_assign_at_keys (k v : Z) (m m' : Fuzz.int_map) :
  Fuzz.map_assign_at k v m = Some m' -> map fst m' = map fst m.
Proof.
  revert m'. induction m as [|[k' v'] t IH]; intros m' H; [discriminate|].
  cbn [Fuzz.map_assign_at] in H. destruct (k =? k').
  - injection H as <-. reflexivity.
  - destruct (Fuzz.map_assign_at k v t) as [t'|]; [|discriminate].
    injection H as <-. cbn [map fst]. f_equal. now apply IH.
Qed.

Lemma map_assign_at_missing (k v : Z) (m : Fuzz.int_map) :
  ~ In k (map fst m) -> Fuzz.map_assign_at k v m = None.
Proof.
  induction m as [|[k' v'] t IH]; intros Hn; [reflexivity|].
  cbn [Fuzz.map_assign_at]. cbn [map fst In] in Hn.
  destruct (k =? k') eqn:E; [apply Z.eqb_eq in E; subst; tauto|].
  rewrite IH by tauto. reflexivity.
Qed.

(** Assigning at a key of a map whose keys are [a], [a+1], ... sets the
    value at the key's position and leaves the other values. *)
Lemma map_assign_at_range (v : Z) :
  forall (m : Fuzz.int_map) (a : nat) (k : Z),
    map fst m = map Z.of_nat (seq a (length m)) ->
    Z.of_nat a <= k < Z.of_nat a + Z.of_nat (length m) ->
    exists m',
      Fuzz.map_assign_at k v m = Some m' /\
      nth (Z.to_nat (k - Z.of_nat a)) (map snd m') 0 = v /\
      forall j, j <> Z.to_nat (k - Z.of_nat a) ->
                nth j (map snd m') 0 = nth j (map snd m) 0.
Proof.
  induction m as [|[k' v'] t IH]; intros a k Hkeys Hk.
  - cbn [length] in Hk. lia.
  - cbn [length seq map fst] in Hkeys. injection Hkeys as Hk' Ht.
    cbn [Fuzz.map_assign_at]. subst k'. destruct (k =? Z.of_nat a) eqn:E.
    + apply Z.eqb_eq in E. subst k. eexists. split; [reflexivity|].
      rewrite Z.sub_diag. cbn [map snd Z.to_nat nth]. split; [reflexivity|].
      intros [|j] Hj; [congruence | reflexivity].
    + apply Z.eqb_neq in E. cbn [length] in Hk.
      destruct (IH (S a) k Ht ltac:(lia)) as (t' & Ha & Hv & Ho).
      rewrite Ha. eexists. split; [reflexivity|].
      replace (Z.to_nat (k - Z.of_nat a))
        with (S (Z.to_nat (k - Z.of_nat (S a)))) by lia.
      cbn [map snd nth]. split; [exact Hv|].
      intros [|j] Hj; [reflexivity|]. apply Ho. lia.
Qed.

(** The constructor leaves one weight, 50, for each of the keys 0 .. 254
    and a distribution of 255 probabilities; [setWeight] and [addAddress]
    keep the keys and rebuild the distribution from the weights. *)
Theorem options_wf_kept :
  Fuzz.options_wf Fuzz.RandomCodeOptions_ctor /\
  Fuzz.opCodeProbability Fuzz.RandomCodeOptions_ctor = repeat 50 255 /\
  (forall o opCode weight o',
      Fuzz.options_wf o ->
      Fuzz.setWeight opCode weight o = (Val tt, o') -> Fuzz.options_wf o') /\
  (forall o address,
      Fuzz.options_wf o -> Fuzz.options_wf (Fuzz.addAddress address o)) /\
  (forall o,
      Fuzz.options_wf o ->
      Fuzz.probabilities_size (Fuzz.opCodeProbability o) = 255).
Proof.
  split; [split; vm_compute; reflexivity|].
  split; [vm_compute; reflexivity|]. split; [|split].
  - intros o opCode weight o' [Hkeys _] H. unfold Fuzz.setWeight in H.
    destruct (Fuzz.map_assign_at opCode weight (Fuzz.mapWeights o)) as [m|] eqn:E;
      [|discriminate].
    injection H as <-. unfold Fuzz.options_wf, Fuzz.setWeights.
    cbn [Fuzz.mapWeights Fuzz.opCodeProbability].
    split; [|reflexivity]. rewrite (map_assign_at_keys _ _ _ _ E). exact Hkeys.
  - intros o address H. exact H.
  - intros o [Hkeys Hw]. rewrite Hw. unfold Fuzz.probabilities_size.
    assert (Hl : length (map snd (Fuzz.mapWeights o)) = 255%nat).
    { rewrite length_map, <- (length_map fst), Hkeys, length_map, length_seq.
      reflexivity. }
    destruct (map snd (Fuzz.mapWeights o)); [discriminate|].
    rewrite Hl. reflexivity.
Qed.

(** [setWeight] for an opcode in 0 .. 254 sets that opcode's weight in the
    distribution and changes no other weight, flag or address. *)
Theorem setWeight_sets_weight
    (o : Fuzz.RandomCodeOptions) (opCode weight : Z) :
  Fuzz.options_wf o -> 0 <= opCode <= 254 ->
  exists o',
    Fuzz.setWeight opCode weight o = (Val tt, o') /\
    nth (Z.to_nat opCode) (Fuzz.opCodeProbability o') 0 = weight /\
    (forall j, j <> Z.to_nat opCode ->
       nth j (Fuzz.opCodeProbability o') 0
       = nth j (Fuzz.opCodeProbability o) 0) /\
    Fuzz.useUndefinedOpCodes o' = Fuzz.useUndefinedOpCodes o /\
    Fuzz.smartCodeProbability o' = Fuzz.smartCodeProbability o /\
    Fuzz.addressList o' = Fuzz.addressList o.
Proof.
  intros [Hkeys Hw] Hop.
  assert (Hlen : length (Fuzz.mapWeights o) = 255%nat).
  { rewrite <- (length_map fst), Hkeys, length_map, length_seq. reflexivity. }
  destruct (map_assign_at_range weight (Fuzz.mapWeights o) 0 opCode)
    as (m' & Ha & Hv & Ho).
  { rewrite Hlen. exact Hkeys. }
  { rewrite Hlen. lia. }
  rewrite Z.sub_0_r in Hv, Ho.
  unfold Fuzz.setWeight. rewrite Ha. eexists. split; [reflexivity|].
  unfold Fuzz.setWeights.
  cbn [Fuzz.opCodeProbability Fuzz.mapWeights Fuzz.useUndefinedOpCodes
       Fuzz.smartCodeProbability Fuzz.addressList].
  split; [exact Hv|]. split; [|repeat split].
  intros j Hj. rewrite Hw. apply Ho. exact Hj.
Qed.

(** [setWeight] for an opcode outside 0 .. 254, such as 255, throws and
    leaves the options as they were. *)
Theorem setWeight_throws_out_of_range
    (o : Fuzz.RandomCodeOptions) (opCode weight : Z) :
  Fuzz.options_wf o -> opCode < 0 \/ 254 < opCode ->
  Fuzz.setWeight opCode weight o = (Thrown, o).
Proof.
  intros [Hkeys _] Hop. unfold Fuzz.setWeight.
  rewrite map_assign_at_missing; [reflexivity|].
  rewrite Hkeys. intros Hin. apply in_map_iff in Hin.
  destruct Hin as (n & Hn & Hs). apply in_seq in Hs. lia.
Qed.

(** ** Runs of the further properties on the small instances *)

Lemma populate_signed_witness :
  Z.land 3 ContainsSignature <> 0 /\
  length (zero_hash 65) = 65%nat /\
  populate (C := Toy.crypto) (3 :: [104] ++ zero_hash 65) empty_Message
  = (Val false, empty_Message).
Proof.
  assert (H1 : Z.land 3 ContainsSignature <> 0) by (vm_compute; discriminate).
  assert (H2 : length (zero_hash 65) = 65%nat) by reflexivity.
  split; [exact H1|]. split; [exact H2|].
  exact (populate_signed (C := Toy.crypto) 3 [104] (zero_hash 65)
           empty_Message H1 H2).
Defined.

Lemma populate_reads_bit_0_witness :
  populate (C := Toy.crypto) [1; 104; 105] empty_Message
  = populate (C := Toy.crypto) [3; 104; 105] empty_Message.
Proof.
  apply (populate_reads_bit_0 (C := Toy.crypto) 1 3 [104; 105] empty_Message).
  reflexivity.
Defined.

Lemma recipient_unset_unless_opened_witness :
  Message_run (C := Toy.crypto)
    (mkEnvelope 0 0 [[1; 2; 3; 4]] [0; 104] 0) (zero_hash 32) 0
  = (Val NotDecrypted, empty_Message) /\
  m_to empty_Message = zero_hash 64.
Proof.
  assert (H : Message_run (C := Toy.crypto)
                (mkEnvelope 0 0 [[1; 2; 3; 4]] [0; 104] 0) (zero_hash 32) 0
              = (Val NotDecrypted, empty_Message))
    by (vm_compute; reflexivity).
  split; [exact H|].
  apply (recipient_unset_unless_opened (C := Toy.crypto) _ _ _ _ _ H).
  discriminate.
Defined.

Lemma short_data_is_not_decrypted_witness :
  Message_run (C := Toy.crypto)
    (mkEnvelope 0 0 [[1; 2; 3; 4]] [0; 104] 0) (zero_hash 32) 7
  = (Val NotDecrypted, empty_Message).
Proof.
  apply (short_data_is_not_decrypted (C := Toy.crypto)).
  - reflexivity.
  - vm_compute. reflexivity.
Defined.

Lemma sealed_envelope_fields_witness :
  m_expiry (mkEnvelope 1060 60 [[1; 2; 3; 4]] (0 :: Toy.hello) 0)
  = (1000 + 60) mod 2 ^ 32.
Proof.
  apply (sealed_envelope_fields (C := Toy.crypto) LittleEndian Toy.clock 1
           1000 (mkMessage Toy.hello (zero_hash 64) (zero_hash 64))
           (zero_hash 32) [Toy.topic] 60 0).
  vm_compute. reflexivity.
Defined.

Lemma sealed_signature_recovers_witness :
  exists sg k,
    length sg = 65%nat /\
    recover (Crypto := Toy.crypto) sg (sha3 (Crypto := Toy.crypto) Toy.hello)
    = Val k /\
    KeyPair_pub (Crypto := Toy.crypto) Toy.secret = Val k /\
    1 :: Toy.hello
      ++ (Toy.fixed 32 Toy.secret ++ Toy.fixed 32 (Toy.toy_sha3 Toy.hello)
          ++ [27])
    = 1 :: Toy.hello ++ sg.
Proof.
  apply (sealed_signature_recovers (C := Toy.crypto) LittleEndian Toy.clock 1
           1000 (mkMessage Toy.hello (zero_hash 64) (zero_hash 64))
           Toy.secret [Toy.topic] 60 0
           (mkEnvelope 1060 60 [[1; 2; 3; 4]]
              (1 :: Toy.hello
                 ++ (Toy.fixed 32 Toy.secret
                     ++ Toy.fixed 32 (Toy.toy_sha3 Toy.hello) ++ [27])) 0)).
  - vm_compute. reflexivity.
  - reflexivity.
Defined.

Lemma sealed_without_recipient_is_plain_witness :
  exists e,
    seal (C := Toy.crypto) LittleEndian Toy.clock 1 1000
      (mkMessage Toy.hello (zero_hash 64) (zero_hash 64)) Toy.secret
      [Toy.topic] 60 0 = Done e /\
    seal_input (C := Toy.crypto) Toy.hello Toy.secret = Done (m_data e) /\
    populate (C := Toy.crypto) (m_data e) empty_Message
    = (Val true,
       mkMessage Toy.hello (sealed_sender Toy.secret (Toy.pub Toy.secret))
         (zero_hash 64)).
Proof.
  apply (sealed_without_recipient_is_plain (C := Toy.crypto) (L := toy_laws)
           LittleEndian Toy.clock 1 1 1000 Toy.hello (zero_hash 64)
           (zero_hash 64) Toy.secret (Toy.pub Toy.secret) [Toy.topic] 60 0).
  - reflexivity.
  - intros _. split; reflexivity.
  - split; [apply le_n | vm_compute; discriminate].
  - apply le_n.
Defined.

Lemma search_first_found_wins_witness :
  (1024 <= 2 ^ 32)%N /\
  (forall t, 0 <= t < Z.of_N 1024 ->
     pow_score (C := Toy.crypto) LittleEndian (zero_hash 32) t
     <= pow_best (N.iter 1024
                    (pow_step (C := Toy.crypto) LittleEndian (zero_hash 32))
                    (mkPow 0 0 0))).
Proof.
  assert (H : (1024 <= 2 ^ 32)%N) by (vm_compute; discriminate).
  split; [exact H|].
  exact (proj1 (search_first_found_wins (C := Toy.crypto) LittleEndian
                  (zero_hash 32) 0 1024 H)).
Defined.

Lemma pow_loop_rounds_witness :
  pow_loop (C := Toy.crypto) LittleEndian (zero_hash 32) Toy.clock 2 2 1
    (mkPow 0 0 0)
  = Done (N.iter (1024 * N.of_nat 1)
            (pow_step (C := Toy.crypto) LittleEndian (zero_hash 32))
            (mkPow 0 0 0)).
Proof.
  apply (pow_loop_rounds (C := Toy.crypto) LittleEndian (zero_hash 32)
           Toy.clock 2 1 1 2 (mkPow 0 0 0)).
  - intros p Hp. assert (Hp1 : p = 1%nat) by lia. subst p.
    vm_compute. reflexivity.
  - vm_compute. discriminate.
  - apply le_n.
Defined.

Lemma d1_block_little_endian_witness :
  0 <= bswap32 1 < 2 ^ 32 /\
  d1_block LittleEndian 1 = h256_of_u256 (bswap32 1) /\
  (d1_block LittleEndian 1 = h256_of_u256 1 <-> bswap32 1 = 1).
Proof.
  apply (d1_block_little_endian 1). lia.
Defined.

Lemma workProved_big_endian_witness :
  workProved (C := Toy.crypto) (mkEnvelope 0 0 [] [] 0) = 7.
Proof.
  apply (workProved_big_endian (C := Toy.crypto) Toy.clock 2 2
           (mkEnvelope 0 0 [] [] 0) (mkPow 1024 7 0)).
  - vm_compute. reflexivity.
  - reflexivity.
Defined.

Lemma generate_terminates_with_undefined_witness :
  exists r,
    Fuzz.generate (W := Fuzz.toy_world) 97 100
      (Fuzz.mkOptions true 50 [] [] []) 0 = Some r.
Proof.
  apply (generate_terminates_with_undefined (W := Fuzz.toy_world)).
  - reflexivity.
  - vm_compute. apply le_n.
Defined.

Lemma generate_retries_forever_witness :
  Fuzz.useUndefinedOpCodes Fuzz.RandomCodeOptions_ctor = false /\
  0 < Fuzz.rnd (World := Fuzz.toy_world) 0 0 100 /\
  (forall fuel,
      Fuzz.generate (W := Fuzz.toy_world) fuel 100
        Fuzz.RandomCodeOptions_ctor 0 = None).
Proof.
  split; [reflexivity|]. split; [reflexivity|].
  apply (generate_retries_forever (W := Fuzz.toy_world)).
  - reflexivity.
  - reflexivity.
  - intros j _. vm_compute. reflexivity.
Defined.

Lemma getRandomAddress_is_listed_witness :
  In (fst (Fuzz.getRandomAddress (W := Fuzz.toy_world)
             (Fuzz.mkOptions false 50 [] [] [[1]; [2]]) 0))
     [[1]; [2]] /\
  snd (Fuzz.getRandomAddress (W := Fuzz.toy_world)
         (Fuzz.mkOptions false 50 [] [] [[1]; [2]]) 0) = 1%nat.
Proof.
  apply (getRandomAddress_is_listed (W := Fuzz.toy_world)
           (Fuzz.mkOptions false 50 [] [] [[1]; [2]]) 0).
  discriminate.
Defined.

Lemma pick_opcode_below_255_witness :
  Fuzz.pick_opcode (W := Fuzz.toy_world) Fuzz.RandomCodeOptions_ctor 0
  = (Fuzz.rnd (World := Fuzz.toy_world) 0 0 254, 1%nat) /\
  0 <= fst (Fuzz.pick_opcode (W := Fuzz.toy_world)
              Fuzz.RandomCodeOptions_ctor 0) <= 254.
Proof.
  apply (pick_opcode_below_255 (W := Fuzz.toy_world)
           Fuzz.RandomCodeOptions_ctor 0).
  - split; vm_compute; reflexivity.
  - intros k lo hi H. cbn [Fuzz.rnd Fuzz.toy_world].
    destruct ((lo <=? 96) && (96 <=? hi)) eqn:E; [|lia].
    apply andb_true_iff in E. destruct E as [E1 E2].
    apply Z.leb_le in E1. apply Z.leb_le in E2. lia.
Defined.

Lemma setWeight_sets_weight_witness :
  exists o',
    Fuzz.setWeight 96 7 Fuzz.RandomCodeOptions_ctor = (Val tt, o') /\
    nth (Z.to_nat 96) (Fuzz.opCodeProbability o') 0 = 7 /\
    (forall j, j <> Z.to_nat 96 ->
       nth j (Fuzz.opCodeProbability o') 0
       = nth j (Fuzz.opCodeProbability Fuzz.RandomCodeOptions_ctor) 0) /\
    Fuzz.useUndefinedOpCodes o'
    = Fuzz.useUndefinedOpCodes Fuzz.RandomCodeOptions_ctor /\
    Fuzz.smartCodeProbability o'
    = Fuzz.smartCodeProbability Fuzz.RandomCodeOptions_ctor /\
    Fuzz.addressList o' = Fuzz.addressList Fuzz.RandomCodeOptions_ctor.
Proof.
  apply (setWeight_sets_weight Fuzz.RandomCodeOptions_ctor 96 7).
  - split; vm_compute; reflexivity.
  - lia.
Defined.

Lemma setWeight_throws_out_of_range_witness :
  Fuzz.setWeight 255 7 Fuzz.RandomCodeOptions_ctor
  = (Thrown, Fuzz.RandomCodeOptions_ctor).
Proof.
  apply (setWeight_throws_out_of_range Fuzz.RandomCodeOptions_ctor 255 7).
  - split; vm_compute; reflexivity.
  - right. lia.
Defined.
